(** * Menu recommender: the [/recommend] scoring and ranking engine

    Shallow embedding of the Express handler [app.post("/recommend")] of the
    backend server, together with the line splitting of the client-side
    sibling engine ([onRecommend] in [src/App.jsx]).

    Modelling conventions.
    - A JavaScript string is a [string] of the Standard Library; the model
      covers the ASCII range, on which [String.prototype.toLowerCase] maps
      [A]-[Z] to [a]-[z] and leaves every other character alone.
    - Scores are JavaScript numbers holding small integers: [Z].
    - Arrays are lists; [Array.prototype.includes] on an array of strings is
      membership by string equality; [forEach] with a closure that mutates
      local variables is a left fold over an explicit accumulator.
    - [Array.prototype.sort] is the stable sort that ECMAScript prescribes,
      driven by the comparator of the source.
    - The request body is a pair of optional fields; the response is either
      a JSON body with the results or a status code with an error message.

    Also embedded: the [/ingredients] search of the backend; the ingredient
    picker, the request guards and the rendering cut of the client
    ([src/App.tsx], module [AppTsx]); the local engine with its preference
    parser ([src/App.jsx], module [AppJsx]).  A click is handled on the state
    that the previous click left, as React does for discrete events. *)

From Stdlib Require Import ZArith List Bool Ascii String Lia Permutation Sorted.
Import ListNotations.

Local Open Scope string_scope.
Local Open Scope list_scope.
Local Open Scope Z_scope.

(** ** JavaScript string primitives *)

Module JsString.

(** One character of [toLowerCase] on the ASCII range. *)
Definition lower_char (c : ascii) : ascii :=
  let n := nat_of_ascii c in
  if (andb (Nat.leb 65 n) (Nat.leb n 90)) then ascii_of_nat (n + 32) else c.

(** [s.toLowerCase()] *)
Fixpoint toLowerCase (s : string) : string :=
  match s with
  | EmptyString => EmptyString
  | String c r => String (lower_char c) (toLowerCase r)
  end.

(** [t] starts with [s]. *)
Fixpoint startsWith (t s : string) : bool :=
  match s, t with
  | EmptyString, _ => true
  | String _ _, EmptyString => false
  | String a s', String b t' => andb (Ascii.eqb a b) (startsWith t' s')
  end.

(** [t.includes(s)]: [s] occurs in [t] at some position. *)
Fixpoint includes (t s : string) : bool :=
  orb (startsWith t s)
      match t with
      | EmptyString => false
      | String _ t' => includes t' s
      end.

Definition newline : ascii := "010"%char.

(** [s.split("\n")]: never empty, the pieces between the newlines. *)
Fixpoint split_newline (s : string) : list string :=
  match s with
  | EmptyString => [EmptyString]
  | String c r =>
      if Ascii.eqb c newline then EmptyString :: split_newline r
      else match split_newline r with
           | h :: t => String c h :: t
           | [] => [String c EmptyString]
           end
  end.

(** [Boolean(s)] for a string: true unless the string is empty. *)
Definition truthy (s : string) : bool := negb (String.eqb s EmptyString).

(** White space of [trim] on the ASCII range: tab, line feed, vertical
    tab, form feed, carriage return and space. *)
Definition is_space (c : ascii) : bool :=
  let n := nat_of_ascii c in
  orb (andb (Nat.leb 9 n) (Nat.leb n 13)) (Nat.eqb n 32).

Fixpoint trimStart (s : string) : string :=
  match s with
  | EmptyString => EmptyString
  | String c r => if is_space c then trimStart r else s
  end.

(** Drops trailing white space: a character is kept when something
    non-blank follows it or it is not blank itself. *)
Fixpoint trimEnd (s : string) : string :=
  match s with
  | EmptyString => EmptyString
  | String c r =>
      match trimEnd r with
      | EmptyString => if is_space c then EmptyString else String c EmptyString
      | r' => String c r'
      end
  end.

(** [s.trim()] *)
Definition trim (s : string) : string := trimEnd (trimStart s).

(** [xs.join(sep)] *)
Fixpoint join (sep : string) (xs : list string) : string :=
  match xs with
  | [] => EmptyString
  | [x] => x
  | x :: rest => (x ++ sep ++ join sep rest)%string
  end.

(** [xs.includes(x)] on an array of strings. *)
Definition array_includes (xs : list string) (x : string) : bool :=
  existsb (String.eqb x) xs.

End JsString.

Import JsString.

(** ** Data model *)

(** [type Ingredient = { id; name; aliases }] *)
Record Ingredient := mkIngredient {
  id : string;
  name : string;
  aliases : list string
}.

(** [type Profile = { like; dislike; avoid }]: three arrays of ids. *)
Record Profile := mkProfile {
  like : list string;
  dislike : list string;
  avoid : list string
}.

(** One element of [results]. *)
Record DishMatch := mkDishMatch {
  dish : string;
  score : Z;
  matchedLiked : list string;
  matchedDisliked : list string;
  matchedAvoid : list string;
  explanation : string
}.

(** What the handler sends back. *)
Inductive Response :=
| Json (results : list DishMatch)
| Status (code : Z) (error : string).

(** ** The scoring loop *)

(** The four locals that the [forEach] callback mutates. *)
Record Acc := mkAcc {
  a_score : Z;
  a_liked : list string;
  a_disliked : list string;
  a_avoid : list string
}.

Definition acc0 : Acc := mkAcc 0 [] [] [].

(** [lowerDish.includes(ing.name) || ing.aliases.some(a => lowerDish.includes(a))] *)
Definition is_match (lowerDish : string) (ing : Ingredient) : bool :=
  orb (includes lowerDish (name ing))
      (existsb (fun a => includes lowerDish a) (aliases ing)).

(** The body of [ingredients.forEach((ing) => ...)]. *)
Definition step (profile : Profile) (lowerDish : string) (acc : Acc)
    (ing : Ingredient) : Acc :=
  if negb (is_match lowerDish ing) then acc
  else if array_includes (avoid profile) (id ing) then
    mkAcc (-999) (a_liked acc) (a_disliked acc) (a_avoid acc ++ [name ing])
  else if array_includes (like profile) (id ing) then
    mkAcc (a_score acc + 2) (a_liked acc ++ [name ing]) (a_disliked acc) (a_avoid acc)
  else if array_includes (dislike profile) (id ing) then
    mkAcc (a_score acc - 1) (a_liked acc) (a_disliked acc ++ [name ing]) (a_avoid acc)
  else acc.

Definition run (ingredients : list Ingredient) (profile : Profile)
    (lowerDish : string) (acc : Acc) : Acc :=
  fold_left (step profile lowerDish) ingredients acc.

(** The [explanation] field. *)
Definition explain (acc : Acc) : string :=
  if (0 <? Z.of_nat (List.length (a_avoid acc))) then
    ("Rejected due to avoid ingredients: " ++ join ", " (a_avoid acc))%string
  else
    ("Matches liked: " ++
      (if truthy (join ", " (a_liked acc)) then join ", " (a_liked acc) else "none"))%string.

(** The callback of [dishes.map((dish) => ...)]. *)
Definition scoreDish (ingredients : list Ingredient) (profile : Profile)
    (d : string) : DishMatch :=
  let acc := run ingredients profile (toLowerCase d) acc0 in
  mkDishMatch d (a_score acc) (a_liked acc) (a_disliked acc) (a_avoid acc)
    (explain acc).

(** ** Ranking *)

(** [menuText.split("\n").filter(Boolean)] *)
Definition dishes (menuText : string) : list string :=
  filter truthy (split_newline menuText).

(** The comparator [(a, b) => b.score - a.score]. *)
Definition by_score (a b : DishMatch) : Z := score b - score a.

(** [Array.prototype.sort(cmp)]: a negative or zero [cmp x y] keeps [x]
    before [y]; a positive one moves [y] in front.  Elements that compare
    equal keep their order. *)
Section ArraySort.
Context {A : Type} (cmp : A -> A -> Z).

Fixpoint sort_insert (x : A) (l : list A) : list A :=
  match l with
  | [] => [x]
  | y :: r => if 0 <? cmp x y then y :: sort_insert x r else x :: l
  end.

Definition array_sort (l : list A) : list A :=
  fold_right sort_insert [] l.
End ArraySort.

(** The handler: the guard, the map over the dishes, the sort. *)
Definition recommend (ingredients : list Ingredient)
    (menuText : option string) (profile : option Profile) : Response :=
  match menuText, profile with
  | Some m, Some p =>
      if negb (truthy m) then Status 400 "Missing data"
      else Json (array_sort by_score (map (scoreDish ingredients p) (dishes m)))
  | _, _ => Status 400 "Missing data"
  end.

(** The line splitting of the client-side engine, which trims each line
    before it drops the empty ones:
    [menuText.split("\n").map((l) => l.trim()).filter(Boolean)]. *)
Definition trimmed_lines (menuText : string) : list string :=
  filter truthy (map trim (split_newline menuText)).


(** ** Derived notions used in the statements *)

(** The three branches of the else-if chain, as tests on a catalog entry. *)
Definition hits_avoid (profile : Profile) (lowerDish : string)
    (ing : Ingredient) : bool :=
  andb (is_match lowerDish ing) (array_includes (avoid profile) (id ing)).

Definition hits_like (profile : Profile) (lowerDish : string)
    (ing : Ingredient) : bool :=
  andb (is_match lowerDish ing)
       (andb (negb (array_includes (avoid profile) (id ing)))
             (array_includes (like profile) (id ing))).

Definition hits_dislike (profile : Profile) (lowerDish : string)
    (ing : Ingredient) : bool :=
  andb (is_match lowerDish ing)
       (andb (negb (array_includes (avoid profile) (id ing)))
             (andb (negb (array_includes (like profile) (id ing)))
                   (array_includes (dislike profile) (id ing)))).

(** The spec's notion: [s] occurs in [text] as a substring when letter case
    is ignored, that is, some substring of [text] and [s] have the same
    lower-case form. *)
Definition occurs_ci (s text : string) : Prop :=
  exists pre u post, text = (pre ++ u ++ post)%string /\ toLowerCase u = toLowerCase s.

(** Descending by score. *)
Definition desc_by_score (l : list DishMatch) : Prop :=
  StronglySorted (fun a b => score b <= score a) l.

(** The entries of [l] that carry score [s], in the order of [l]. *)
Definition with_score (s : Z) (l : list DishMatch) : list DishMatch :=
  filter (fun r => score r =? s) l.

(** The catalog entries resolved in a dish line, in catalog order. *)
Definition resolved (ings : list Ingredient) (d : string) : list Ingredient :=
  filter (is_match (toLowerCase d)) ings.

(** The entry's id is listed in the bucket. *)
Definition in_bucket (bucket : list string) (ing : Ingredient) : bool :=
  array_includes bucket (id ing).

(** How many entries of [l] pass the test. *)
Definition count (f : Ingredient -> bool) (l : list Ingredient) : Z :=
  Z.of_nat (List.length (filter f l)).

(** ** Fixtures *)

Definition garlic : Ingredient := mkIngredient "i1" "garlic" [].
Definition peanuts : Ingredient := mkIngredient "i2" "peanuts" ["groundnut"].

(** The catalog and profile of the spec's scenario. *)
Definition scenario_catalog : list Ingredient := [garlic; peanuts].
Definition scenario_profile : Profile := mkProfile ["i1"] [] ["i2"].

(** ["Garlic Chicken\nPeanut Satay"] *)
Definition scenario_menu : string :=
  ("Garlic Chicken" ++ String newline "Peanut Satay")%string.

(** ["Soup\n \nSalad"]: the middle line holds one space. *)
Definition blank_line_menu : string :=
  ("Soup" ++ String newline (" " ++ String newline "Salad"))%string.

(** [n] newline characters. *)
Fixpoint newlines (n : nat) : string :=
  match n with
  | O => EmptyString
  | S k => String newline (newlines k)
  end.

(** ** The ingredient search of the backend *)

(** [x || ""] for an optional string. *)
Definition or_empty (x : option string) : string :=
  match x with
  | Some s => if truthy s then s else EmptyString
  | None => EmptyString
  end.

(** The test of the [/ingredients] filter:
    [ing.name.includes(q) || ing.aliases.some((a) => a.includes(q))]. *)
Definition mentions (q : string) (ing : Ingredient) : bool :=
  orb (includes (name ing) q)
      (existsb (fun a => includes a q) (aliases ing)).

(** [app.get("/ingredients")]: the [items] of the answer; [q] is
    [req.query.q], absent or a string. *)
Definition search (ingredients : list Ingredient) (q : option string)
    : list Ingredient :=
  let q := toLowerCase (or_empty q) in
  if negb (truthy q) then ingredients
  else filter (mentions q) ingredients.

(** ** The client of the backend ([src/App.tsx]) *)

Module AppTsx.

(** [keyof Profile] *)
Inductive BucketKey := KLike | KDislike | KAvoid.

(** [profile[b]] *)
Definition get_bucket (p : Profile) (b : BucketKey) : list string :=
  match b with
  | KLike => like p
  | KDislike => dislike p
  | KAvoid => avoid p
  end.

(** [{ ...p, [b]: v }] *)
Definition set_bucket (p : Profile) (b : BucketKey) (v : list string) : Profile :=
  match b with
  | KLike => mkProfile v (dislike p) (avoid p)
  | KDislike => mkProfile (like p) v (avoid p)
  | KAvoid => mkProfile (like p) (dislike p) v
  end.

(** The members of
    [new Set([...profile.like, ...profile.dislike, ...profile.avoid])]. *)
Definition selectedIds (p : Profile) : list string :=
  like p ++ dislike p ++ avoid p.

(** The part of the component state that the ingredient picker touches:
    the profile, the active bucket and the cache of display names, a
    JavaScript object used as a map from id to name (the newest binding of a
    key first). *)
Record Picker := mkPicker {
  profile : Profile;
  activeBucket : BucketKey;
  ingredientNameById : list (string * string)
}.

(** The initial [useState] values. *)
Definition initial : Picker := mkPicker (mkProfile [] [] []) KLike [].

(** [obj[key]] *)
Fixpoint lookup (key : string) (obj : list (string * string)) : option string :=
  match obj with
  | [] => None
  | (k, v) :: rest => if String.eqb k key then Some v else lookup key rest
  end.

(** [addIngredient(ing)] *)
Definition addIngredient (st : Picker) (ing : Ingredient) : Picker :=
  if array_includes (selectedIds (profile st)) (id ing) then st
  else mkPicker
         (set_bucket (profile st) (activeBucket st)
            (get_bucket (profile st) (activeBucket st) ++ [id ing]))
         (activeBucket st)
         ((id ing, name ing) :: ingredientNameById st).

(** [removeIngredient(bucket, id)] *)
Definition removeIngredient (st : Picker) (bucket : BucketKey) (i : string)
    : Picker :=
  mkPicker
    (set_bucket (profile st) bucket
       (filter (fun x => negb (String.eqb x i)) (get_bucket (profile st) bucket)))
    (activeBucket st)
    (ingredientNameById st).

(** [setActiveBucket(b)] *)
Definition setActiveBucket (st : Picker) (b : BucketKey) : Picker :=
  mkPicker (profile st) b (ingredientNameById st).

(** [nameForId(id)]: [ingredientNameById[id] ?? id] *)
Definition nameForId (st : Picker) (i : string) : string :=
  match lookup i (ingredientNameById st) with
  | Some n => n
  | None => i
  end.

(** What a click in the picker does. *)
Inductive Action :=
| Add (ing : Ingredient)
| Remove (bucket : BucketKey) (i : string)
| Activate (b : BucketKey).

Definition act (st : Picker) (a : Action) : Picker :=
  match a with
  | Add ing => addIngredient st ing
  | Remove b i => removeIngredient st b i
  | Activate b => setActiveBucket st b
  end.

(** The head of the search effect: the trimmed query is sent only when it
    has two characters or more. *)
Definition ingredientRequest (ingredientQuery : string) : option string :=
  let q := trim ingredientQuery in
  if Nat.ltb (String.length q) 2 then None else Some q.

(** The head of [analyzeMenu]: the local error, or the body that is posted
    to [/recommend]. *)
Definition analyzeRequest (menuText : string) (p : Profile)
    : string + (string * Profile) :=
  let text := trim menuText in
  if negb (truthy text) then inl "Paste menu text first."
  else inr (text, p).

(** [results.slice(0, 10)]: the entries that are rendered. *)
Definition shown (results : list DishMatch) : list DishMatch :=
  firstn 10 results.

(** Every selected id has a cached name, put there by an [Add] with that id. *)
Definition names_cached (actions : list Action) (st : Picker) : Prop :=
  forall i, In i (selectedIds (profile st)) ->
    exists ing, In (Add ing) actions /\ id ing = i /\
                lookup i (ingredientNameById st) = Some (name ing).

End AppTsx.

(** ** The local engine ([src/App.jsx]) *)

(** The string starts with a white-space character. *)
Definition starts_blank (s : string) : bool :=
  match s with
  | EmptyString => false
  | String c _ => is_space c
  end.

(** Every character of the string is white space. *)
Definition all_blank (s : string) : bool :=
  forallb is_space (list_ascii_of_string s).

(** [s.split(sep)] for a separator of one character. *)
Fixpoint split_on (sep : ascii) (s : string) : list string :=
  match s with
  | EmptyString => [EmptyString]
  | String c r =>
      if Ascii.eqb c sep then EmptyString :: split_on sep r
      else match split_on sep r with
           | h :: t => String c h :: t
           | [] => [String c EmptyString]
           end
  end.

Module AppJsx.

Definition comma : ascii := ","%char.

(** [parseCommaList(str)] *)
Definition parseCommaList (str : string) : list string :=
  filter truthy (map (fun s => toLowerCase (trim s)) (split_on comma str)).

(** The value that [scoreDish] returns. *)
Record Scored := mkScored {
  score : Z;
  reasons : list string;
  excluded : bool
}.

(** The filter callback [(a) => a && t.includes(a)]. *)
Definition hit (t : string) (a : string) : bool :=
  andb (truthy a) (includes t a).

(** [scoreDish(dishText, likesArr, dislikesArr, allergiesArr)] *)
Definition scoreDish (dishText : string)
    (likesArr dislikesArr allergiesArr : list string) : Scored :=
  let t := toLowerCase dishText in
  let allergyHits := filter (hit t) allergiesArr in
  if (0 <? Z.of_nat (List.length allergyHits)) then
    mkScored (-9999)
      [("Contains allergy: " ++ join ", " allergyHits)%string] true
  else
    let likeHits := filter (hit t) likesArr in
    let dislikeHits := filter (hit t) dislikesArr in
    let score := Z.of_nat (List.length likeHits) * 1
                 + Z.of_nat (List.length dislikeHits) * (-3) in
    let reasons :=
      (if (Z.of_nat (List.length likeHits) =? 0) then []
       else [("Matched likes: " ++ join ", " likeHits)%string])
      ++ (if (Z.of_nat (List.length dislikeHits) =? 0) then []
          else [("Contains dislikes: " ++ join ", " dislikeHits)%string]) in
    let reasons :=
      if (Z.of_nat (List.length reasons) =? 0)
      then reasons ++ ["No direct ingredient matches (yet)."]
      else reasons in
    mkScored score reasons false.

(** One element of [ranked]: [{ dish: line, ...r }]. *)
Record Ranked := mkRanked {
  dish : string;
  result : Scored
}.

(** The comparator [(a, b) => b.score - a.score]. *)
Definition by_score (a b : Ranked) : Z := score (result b) - score (result a).

(** [onRecommend()]: the value passed to [setResults]. *)
Definition onRecommend (menuText : string)
    (likesArr dislikesArr allergiesArr : list string) : list Ranked :=
  let lines := filter truthy (map trim (split_newline menuText)) in
  array_sort by_score
    (filter (fun x => negb (excluded (result x)))
       (map (fun line =>
               mkRanked line (scoreDish line likesArr dislikesArr allergiesArr))
            lines)).

(** A term as [parseCommaList] produces them: not empty, trimmed, in lower
    case and without a comma. *)
Definition clean (x : string) : Prop :=
  x <> EmptyString /\ trim x = x /\ toLowerCase x = x /\
  ~ In comma (list_ascii_of_string x).

End AppJsx.

(** ** The ASCII range *)

(** The character is in the ASCII range, where [lower_char] is what
    [String.prototype.toLowerCase] does to it. *)
Definition is_ascii_char (c : ascii) : bool := Nat.ltb (nat_of_ascii c) 128.

(** Every character of the string is in the ASCII range. *)
Definition is_ascii (s : string) : bool :=
  forallb is_ascii_char (list_ascii_of_string s).

(** ** The handler on a profile that may lack a bucket *)

(** A profile as it arrives in the body: any of the three properties may be
    absent; one that is present is an array of strings. *)
Record RawProfile := mkRawProfile {
  raw_like : option (list string);
  raw_dislike : option (list string);
  raw_avoid : option (list string)
}.

(** A well-formed profile, as a body. *)
Definition of_profile (p : Profile) : RawProfile :=
  mkRawProfile (Some (like p)) (Some (dislike p)) (Some (avoid p)).

(** The profile with every absent bucket read as the empty array. *)
Definition fill (p : RawProfile) : Profile :=
  mkProfile (match raw_like p with Some l => l | None => [] end)
            (match raw_dislike p with Some l => l | None => [] end)
            (match raw_avoid p with Some l => l | None => [] end).

(** What becomes of a request: the handler sends a response, or a
    [TypeError] escapes from it ([undefined.includes]), which Express turns
    into status 500. *)
Inductive Outcome :=
| Sent (r : Response)
| TypeError.

(** The body of the [forEach] callback; [None] when it throws. *)
Definition step_raw (p : RawProfile) (lowerDish : string) (acc : Acc)
    (ing : Ingredient) : option Acc :=
  if negb (is_match lowerDish ing) then Some acc
  else
    match raw_avoid p with
    | None => None
    | Some av =>
        if array_includes av (id ing) then
          Some (mkAcc (-999) (a_liked acc) (a_disliked acc) (a_avoid acc ++ [name ing]))
        else
          match raw_like p with
          | None => None
          | Some lk =>
              if array_includes lk (id ing) then
                Some (mkAcc (a_score acc + 2) (a_liked acc ++ [name ing])
                            (a_disliked acc) (a_avoid acc))
              else
                match raw_dislike p with
                | None => None
                | Some dl =>
                    if array_includes dl (id ing) then
                      Some (mkAcc (a_score acc - 1) (a_liked acc)
                                  (a_disliked acc ++ [name ing]) (a_avoid acc))
                    else Some acc
                end
          end
    end.

(** [ingredients.forEach]: a throw ends the loop. *)
Definition run_raw (ingredients : list Ingredient) (p : RawProfile)
    (lowerDish : string) (acc : Acc) : option Acc :=
  fold_left (fun (st : option Acc) ing =>
               match st with
               | Some a => step_raw p lowerDish a ing
               | None => None
               end)
            ingredients (Some acc).

(** The callback of [dishes.map]; [None] when it throws. *)
Definition scoreDish_raw (ingredients : list Ingredient) (p : RawProfile)
    (d : string) : option DishMatch :=
  match run_raw ingredients p (toLowerCase d) acc0 with
  | Some acc =>
      Some (mkDishMatch d (a_score acc) (a_liked acc) (a_disliked acc)
              (a_avoid acc) (explain acc))
  | None => None
  end.

(** [xs.map(f)] for a callback that may throw: the first throw ends it. *)
Fixpoint map_throwing {A B : Type} (f : A -> option B) (xs : list A)
    : option (list B) :=
  match xs with
  | [] => Some []
  | x :: rest =>
      match f x with
      | None => None
      | Some y =>
          match map_throwing f rest with
          | None => None
          | Some ys => Some (y :: ys)
          end
      end
  end.

(** The handler on such a body. *)
Definition recommend_raw (ingredients : list Ingredient)
    (menuText : option string) (profile : option RawProfile) : Outcome :=
  match menuText, profile with
  | Some m, Some p =>
      if negb (truthy m) then Sent (Status 400 "Missing data")
      else match map_throwing (scoreDish_raw ingredients p) (dishes m) with
           | Some results => Sent (Json (array_sort by_score results))
           | None => TypeError
           end
  | _, _ => Sent (Status 400 "Missing data")
  end.

(** Classifying the entry reads a bucket that the profile lacks:
    [profile.avoid] is read first, [profile.like] when the id is not
    avoided, [profile.dislike] when it is not liked either. *)
Definition consults_missing (p : RawProfile) (ing : Ingredient) : bool :=
  match raw_avoid p with
  | None => true
  | Some av =>
      if array_includes av (id ing) then false
      else match raw_like p with
           | None => true
           | Some lk =>
               if array_includes lk (id ing) then false
               else match raw_dislike p with
                    | None => true
                    | Some _ => false
                    end
           end
  end.

(** Some dish line resolves a catalog entry whose classification reads a
    missing bucket. *)
Definition reaches_missing (ingredients : list Ingredient) (p : RawProfile)
    (menuText : string) : bool :=
  existsb (fun d => existsb (consults_missing p) (resolved ingredients d))
          (dishes menuText).

(** ** Sanity checks of the primitives *)

Example toLowerCase_ex : toLowerCase "Garlic Chicken" = "garlic chicken".
Proof. reflexivity. Qed.

Example split_ex : split_newline (String "a" (String newline (String newline "b")))
                   = ["a"; ""; "b"].
Proof. reflexivity. Qed.

Example split_empty_ex : split_newline "" = [""].
Proof. reflexivity. Qed.

Example trim_ex : trim "  a b  " = "a b".
Proof. reflexivity. Qed.

Example includes_ex : includes "peanut satay" "peanuts" = false.
Proof. reflexivity. Qed.

(** ** The loop in closed form *)

Section Loop.
Variable profile : Profile.
Variable lowerDish : string.

Lemma step_cases (acc : Acc) (ing : Ingredient) :
  step profile lowerDish acc ing =
    if hits_avoid profile lowerDish ing then
      mkAcc (-999) (a_liked acc) (a_disliked acc) (a_avoid acc ++ [name ing])
    else if hits_like profile lowerDish ing then
      mkAcc (a_score acc + 2) (a_liked acc ++ [name ing]) (a_disliked acc) (a_avoid acc)
    else if hits_dislike profile lowerDish ing then
      mkAcc (a_score acc - 1) (a_liked acc) (a_disliked acc ++ [name ing]) (a_avoid acc)
    else acc.
Proof.
  unfold step, hits_avoid, hits_like, hits_dislike.
  destruct (is_match lowerDish ing); simpl; [|reflexivity].
  destruct (array_includes (avoid profile) (id ing)); simpl; [reflexivity|].
  destruct (array_includes (like profile) (id ing)); simpl; reflexivity.
Qed.

Lemma hits_exclusive (ing : Ingredient) :
  (hits_avoid profile lowerDish ing = true -> hits_like profile lowerDish ing = false /\ hits_dislike profile lowerDish ing = false) /\
  (hits_like profile lowerDish ing = true -> hits_dislike profile lowerDish ing = false).
Proof.
  unfold hits_avoid, hits_like, hits_dislike.
  destruct (is_match lowerDish ing),
           (array_includes (avoid profile) (id ing)),
           (array_includes (like profile) (id ing)),
           (array_includes (dislike profile) (id ing)); simpl; intuition congruence.
Qed.

Lemma run_liked (ings : list Ingredient) (acc : Acc) :
  a_liked (run ings profile lowerDish acc) =
  a_liked acc ++ map name (filter (hits_like profile lowerDish) ings).
Proof.
  revert acc; induction ings as [|ing ings IH]; intros acc; simpl.
  - now rewrite app_nil_r.
  - unfold run in *; simpl. rewrite IH, step_cases.
    pose proof (hits_exclusive ing) as [Ha Hl].
    destruct (hits_avoid profile lowerDish ing) eqn:Ea.
    + destruct (Ha eq_refl) as [-> _]. reflexivity.
    + destruct (hits_like profile lowerDish ing); simpl; [now rewrite <- app_assoc|].
      destruct (hits_dislike profile lowerDish ing); reflexivity.
Qed.

Lemma run_disliked (ings : list Ingredient) (acc : Acc) :
  a_disliked (run ings profile lowerDish acc) =
  a_disliked acc ++ map name (filter (hits_dislike profile lowerDish) ings).
Proof.
  revert acc; induction ings as [|ing ings IH]; intros acc; simpl.
  - now rewrite app_nil_r.
  - unfold run in *; simpl. rewrite IH, step_cases.
    pose proof (hits_exclusive ing) as [Ha Hl].
    destruct (hits_avoid profile lowerDish ing) eqn:Ea.
    + destruct (Ha eq_refl) as [_ ->]. reflexivity.
    + destruct (hits_like profile lowerDish ing) eqn:El.
      * rewrite (Hl eq_refl). reflexivity.
      * destruct (hits_dislike profile lowerDish ing); simpl; [now rewrite <- app_assoc|reflexivity].
Qed.

Lemma run_avoid (ings : list Ingredient) (acc : Acc) :
  a_avoid (run ings profile lowerDish acc) =
  a_avoid acc ++ map name (filter (hits_avoid profile lowerDish) ings).
Proof.
  revert acc; induction ings as [|ing ings IH]; intros acc; simpl.
  - now rewrite app_nil_r.
  - unfold run in *; simpl. rewrite IH, step_cases.
    destruct (hits_avoid profile lowerDish ing); simpl; [now rewrite <- app_assoc|].
    destruct (hits_like profile lowerDish ing); [reflexivity|].
    destruct (hits_dislike profile lowerDish ing); reflexivity.
Qed.

(** Without an avoid hit the score is a running sum. *)
Lemma run_score_no_avoid (ings : list Ingredient) (acc : Acc) :
  filter (hits_avoid profile lowerDish) ings = [] ->
  a_score (run ings profile lowerDish acc) =
  a_score acc
  + 2 * Z.of_nat (List.length (filter (hits_like profile lowerDish) ings))
  - Z.of_nat (List.length (filter (hits_dislike profile lowerDish) ings)).
Proof.
  revert acc; induction ings as [|ing ings IH]; intros acc Hno.
  - unfold run; simpl; lia.
  - simpl in Hno. destruct (hits_avoid profile lowerDish ing) eqn:Ea; [discriminate|].
    unfold run in *. cbn [fold_left filter].
    rewrite (IH _ Hno), step_cases, Ea.
    pose proof (hits_exclusive ing) as [_ Hl].
    destruct (hits_like profile lowerDish ing) eqn:El.
    + rewrite (Hl eq_refl). cbn [a_score List.length].
      rewrite Nat2Z.inj_succ. lia.
    + destruct (hits_dislike profile lowerDish ing); cbn [a_score List.length];
        rewrite ?Nat2Z.inj_succ; lia.
Qed.
End Loop.

(** ** What [includes] and [toLowerCase] compute *)

Section Substrings.
Local Open Scope string_scope.

Lemma startsWith_iff (t s : string) :
  startsWith t s = true <-> exists post, t = s ++ post.
Proof.
  revert t; induction s as [|a s IH]; intros t; simpl.
  - split; [intros _; now exists t | intros _; destruct t; reflexivity].
  - destruct t as [|b t]; simpl.
    + split; [discriminate | intros [post H]; discriminate].
    + rewrite andb_true_iff, Ascii.eqb_eq, IH. split.
      * intros [-> [post ->]]. now exists post.
      * intros [post H]. injection H as -> ->. split; [reflexivity | now exists post].
Qed.

Lemma includes_iff (t s : string) :
  includes t s = true <-> exists pre post, t = pre ++ s ++ post.
Proof.
  induction t as [|b t IH]; cbn [includes].
  - rewrite orb_false_r, startsWith_iff. split.
    + intros [post H]. now exists "", post.
    + intros [pre [post H]]. destruct pre; [now exists post | discriminate].
  - rewrite orb_true_iff, startsWith_iff, IH. split.
    + intros [[post H] | [pre [post H]]].
      * now exists "", post.
      * exists (String b pre), post. now rewrite H.
    + intros [pre [post H]]. destruct pre as [|c pre]; simpl in H.
      * left. now exists post.
      * right. injection H as _ H. now exists pre, post.
Qed.

Lemma toLowerCase_app (a b : string) :
  toLowerCase (a ++ b) = toLowerCase a ++ toLowerCase b.
Proof. induction a as [|c a IH]; simpl; [reflexivity | now rewrite IH]. Qed.

Lemma toLowerCase_split (t a b : string) :
  toLowerCase t = a ++ b ->
  exists t1 t2, t = t1 ++ t2 /\ toLowerCase t1 = a /\ toLowerCase t2 = b.
Proof.
  revert t; induction a as [|c a IH]; intros t H; simpl in H.
  - now exists "", t.
  - destruct t as [|d t]; [discriminate|]. simpl in H. injection H as Hc H.
    destruct (IH _ H) as [t1 [t2 [-> [H1 H2]]]].
    exists (String d t1), t2. simpl. now rewrite Hc, H1.
Qed.

Lemma occurs_ci_iff (s text : string) :
  occurs_ci s text <-> includes (toLowerCase text) (toLowerCase s) = true.
Proof.
  rewrite includes_iff. split.
  - intros [pre [u [post [-> Hu]]]].
    exists (toLowerCase pre), (toLowerCase post).
    now rewrite !toLowerCase_app, Hu.
  - intros [pre [post H]].
    destruct (toLowerCase_split _ _ _ H) as [t1 [r [-> [_ Hr]]]].
    destruct (toLowerCase_split _ _ _ Hr) as [u [t3 [-> [Hu _]]]].
    now exists t1, u, t3.
Qed.
End Substrings.

(** ** The stable sort *)

Section SortFacts.
Lemma sort_insert_perm (x : DishMatch) (l : list DishMatch) :
  Permutation (sort_insert by_score x l) (x :: l).
Proof.
  induction l as [|y r IH]; simpl; [reflexivity|].
  destruct (0 <? by_score x y); [|reflexivity].
  rewrite IH. apply perm_swap.
Qed.

Lemma array_sort_perm (l : list DishMatch) :
  Permutation (array_sort by_score l) l.
Proof.
  induction l as [|x l IH]; simpl; [reflexivity|].
  unfold array_sort in *. rewrite sort_insert_perm. now constructor.
Qed.

Lemma sort_insert_desc (x : DishMatch) (l : list DishMatch) :
  desc_by_score l -> desc_by_score (sort_insert by_score x l).
Proof.
  unfold desc_by_score.
  induction l as [|y r IH]; intros Hs; simpl.
  - constructor; constructor.
  - inversion Hs as [|? ? Hr Hy]; subst.
    destruct (0 <? by_score x y) eqn:E; unfold by_score in E.
    + apply Z.ltb_lt in E. constructor; [now apply IH|].
      apply (Permutation_Forall (Permutation_sym (sort_insert_perm x r))).
      constructor; [lia | assumption].
    + apply Z.ltb_ge in E. constructor; [assumption|].
      constructor; [lia|].
      eapply Forall_impl; [|exact Hy]. simpl. intros; lia.
Qed.

Lemma array_sort_desc (l : list DishMatch) :
  desc_by_score (array_sort by_score l).
Proof.
  induction l as [|x l IH]; simpl.
  - constructor.
  - now apply sort_insert_desc.
Qed.

Lemma sort_insert_with_score (s : Z) (x : DishMatch) (l : list DishMatch) :
  with_score s (sort_insert by_score x l) = with_score s (x :: l).
Proof.
  unfold with_score.
  induction l as [|y r IH]; [reflexivity|].
  cbn [sort_insert]. destruct (0 <? by_score x y) eqn:E; [|reflexivity].
  apply Z.ltb_lt in E. unfold by_score in E.
  cbn [filter] in *. rewrite IH.
  destruct (score y =? s) eqn:Ey; [|reflexivity].
  apply Z.eqb_eq in Ey.
  destruct (score x =? s) eqn:Ex; [|reflexivity].
  apply Z.eqb_eq in Ex. lia.
Qed.

Lemma array_sort_with_score (s : Z) (l : list DishMatch) :
  with_score s (array_sort by_score l) = with_score s l.
Proof.
  induction l as [|x l IH]; [reflexivity|].
  cbn [array_sort fold_right]. rewrite sort_insert_with_score.
  unfold with_score in *. cbn [filter]. fold (array_sort by_score l).
  now rewrite IH.
Qed.

(** A descending list is determined by its equal-score runs: whatever
    algorithm the engine's stable sort uses, its output is [array_sort]'s. *)
Lemma desc_stable_unique (l1 l2 : list DishMatch) :
  desc_by_score l1 -> desc_by_score l2 ->
  (forall s, with_score s l1 = with_score s l2) ->
  l1 = l2.
Proof.
  unfold desc_by_score, with_score.
  revert l2; induction l1 as [|x l1 IH]; intros l2 H1 H2 Heq.
  - destruct l2 as [|y l2]; [reflexivity|].
    specialize (Heq (score y)). simpl in Heq. rewrite Z.eqb_refl in Heq.
    discriminate.
  - destruct l2 as [|y l2].
    + specialize (Heq (score x)). simpl in Heq. rewrite Z.eqb_refl in Heq.
      discriminate.
    + inversion H1 as [|? ? S1 F1]; inversion H2 as [|? ? S2 F2]; subst.
      assert (Hxy : score x = score y).
      { assert (Hle1 : score y <= score x).
        { pose proof (Heq (score y)) as E. simpl in E.
          rewrite (Z.eqb_refl (score y)) in E.
          assert (Hin : In y (filter (fun r => score r =? score y) (x :: l1))).
          { simpl. rewrite E. now left. }
          apply filter_In in Hin. destruct Hin as [[->|Hin] _]; [lia|].
          rewrite Forall_forall in F1. now apply F1. }
        assert (Hle2 : score x <= score y).
        { pose proof (Heq (score x)) as E. simpl in E.
          rewrite (Z.eqb_refl (score x)) in E.
          assert (Hin : In x (filter (fun r => score r =? score x) (y :: l2))).
          { simpl. rewrite <- E. now left. }
          apply filter_In in Hin. destruct Hin as [[->|Hin] _]; [lia|].
          rewrite Forall_forall in F2. now apply F2. }
        lia. }
      pose proof (Heq (score x)) as E. simpl in E.
      rewrite Z.eqb_refl, <- Hxy, Z.eqb_refl in E.
      injection E as -> E. f_equal.
      apply IH; try assumption.
      intros s. specialize (Heq s). simpl in Heq.
      destruct (score y =? s); [now injection Heq | assumption].
Qed.
Corollary array_sort_characterised (l out : list DishMatch) :
  desc_by_score out ->
  (forall s, with_score s out = with_score s l) ->
  out = array_sort by_score l.
Proof.
  intros Hd Hs. apply desc_stable_unique; [exact Hd | apply array_sort_desc |].
  intros s. now rewrite Hs, array_sort_with_score.
Qed.
End SortFacts.

Lemma dishes_newlines (n : nat) : dishes (newlines n) = [].
Proof.
  unfold dishes. induction n as [|n IH]; [reflexivity|].
  cbn [newlines split_newline]. rewrite Ascii.eqb_refl. cbn [filter]. exact IH.
Qed.

Lemma recommend_length (ings : list Ingredient) (m : string) (p : Profile)
    (rs : list DishMatch) :
  recommend ings (Some m) (Some p) = Json rs ->
  List.length rs = List.length (dishes m).
Proof.
  unfold recommend. destruct (negb (truthy m)); [discriminate|].
  intros H; injection H as <-.
  rewrite (Permutation_length (array_sort_perm _)). apply length_map.
Qed.

(** ** C1: the sentinel score *)

(** C1.  A dish line with a resolved avoid ingredient should score exactly
    -999 whatever else is resolved and whatever the catalog order.  The loop
    assigns -999 at the avoid hit and keeps adding afterwards: with the
    avoided ingredient listed before a liked one, "Garlic Peanuts" scores
    -997; with the two catalog entries swapped it scores -999. *)
Theorem C1_sentinel_overwritten_by_later_like :
  let r := scoreDish [peanuts; garlic] scenario_profile "Garlic Peanuts" in
  matchedAvoid r = ["peanuts"] /\
  matchedLiked r = ["garlic"] /\
  score r = -997 /\
  score (scoreDish [garlic; peanuts] scenario_profile "Garlic Peanuts") = -999.
Proof. vm_compute. repeat split; reflexivity. Qed.

(** ** C2: the scenario *)

(** C2, as stated, fails: no entry for "Peanut Satay" carries the sentinel
    score with matchedAvoid ["peanuts"]. *)
Lemma C2_peanut_satay_not_rejected :
  ~ (exists rs r,
        recommend scenario_catalog (Some scenario_menu) (Some scenario_profile)
          = Json rs /\
        In r rs /\ dish r = "Peanut Satay" /\
        score r = -999 /\ matchedAvoid r = ["peanuts"]).
Proof.
  intros [rs [r [H [Hin [_ [Hs _]]]]]].
  vm_compute in H. injection H as <-.
  destruct Hin as [<- | [<- | []]]; discriminate Hs.
Qed.

(** C2, amended.  On the scenario the handler returns two entries, in this
    order: "Garlic Chicken" with score 2 and matchedLiked ["garlic"], then
    "Peanut Satay" with score 0 and no match at all, since neither "peanuts"
    nor "groundnut" is a substring of "peanut satay". *)
Theorem C2_scenario_output :
  recommend scenario_catalog (Some scenario_menu) (Some scenario_profile) =
  Json [ mkDishMatch "Garlic Chicken" 2 ["garlic"] [] [] "Matches liked: garlic";
         mkDishMatch "Peanut Satay" 0 [] [] [] "Matches liked: none" ].
Proof. vm_compute. reflexivity. Qed.

(** ** C3: the empty menu text *)

(** C3, as stated, fails: the empty menu text is answered with status 400,
    not with an empty result sequence. *)
Lemma C3_empty_menu_is_an_error :
  recommend scenario_catalog (Some "") (Some scenario_profile)
    = Status 400 "Missing data" /\
  recommend scenario_catalog (Some "") (Some scenario_profile) <> Json [].
Proof. split; [reflexivity | discriminate]. Qed.

(** C3, amended.  For every catalog and profile, the empty menu text is
    rejected with status 400 and the message "Missing data"; the empty result
    sequence is the normal outcome of a non-empty menu text made of newline
    characters only. *)
Theorem C3_empty_menu_rejected_blank_menu_empty
    (ings : list Ingredient) (p : Profile) :
  recommend ings (Some "") (Some p) = Status 400 "Missing data" /\
  forall n : nat, recommend ings (Some (newlines (S n))) (Some p) = Json [].
Proof.
  split; [reflexivity|].
  intros n. unfold recommend.
  change (negb (truthy (newlines (S n)))) with false. cbn iota.
  now rewrite dishes_newlines.
Qed.

(** ** C4: the number of results *)

(** C4.  The result should have one entry per line that is non-empty after
    trimming.  The handler filters the lines without trimming them: on
    "Soup\n \nSalad" it returns three entries, one of them for the line that
    holds a single space, while two lines are non-empty after trimming (the
    count that the client-side engine's own splitting produces). *)
Theorem C4_blank_line_is_scored :
  exists rs,
    recommend scenario_catalog (Some blank_line_menu) (Some scenario_profile)
      = Json rs /\
    map dish rs = ["Soup"; " "; "Salad"] /\
    List.length rs = 3%nat /\
    trimmed_lines blank_line_menu = ["Soup"; "Salad"] /\
    List.length (trimmed_lines blank_line_menu) = 2%nat.
Proof. eexists. split; [vm_compute; reflexivity|]. repeat split. Qed.

(** ** C5: precedence between the buckets *)

(** C5, as stated, fails: an id listed under both like and dislike is
    treated as liked, not as disliked. *)
Lemma C5_like_wins_over_dislike :
  let p := mkProfile ["i1"] ["i1"] [] in
  let r := scoreDish [garlic] p "Garlic Bread" in
  array_includes (like p) (id garlic) = true /\
  array_includes (dislike p) (id garlic) = true /\
  matchedDisliked r = [] /\ matchedLiked r = ["garlic"] /\ score r = 2.
Proof. vm_compute. repeat split; reflexivity. Qed.

(** C5, amended.  For a resolved ingredient the precedence is avoid over
    like over dislike: an id in avoid is treated as avoided whatever the other
    buckets hold; otherwise an id in like is treated as liked, also when it
    is in dislike too; an id is treated as disliked only when it is in
    dislike and in neither avoid nor like; an id in no bucket changes
    nothing. *)
Theorem C5_precedence_avoid_like_dislike
    (p : Profile) (lowerDish : string) (acc : Acc) (ing : Ingredient) :
  is_match lowerDish ing = true ->
  (array_includes (avoid p) (id ing) = true ->
     step p lowerDish acc ing =
     mkAcc (-999) (a_liked acc) (a_disliked acc) (a_avoid acc ++ [name ing])) /\
  (array_includes (avoid p) (id ing) = false ->
   array_includes (like p) (id ing) = true ->
     step p lowerDish acc ing =
     mkAcc (a_score acc + 2) (a_liked acc ++ [name ing]) (a_disliked acc) (a_avoid acc)) /\
  (array_includes (avoid p) (id ing) = false ->
   array_includes (like p) (id ing) = false ->
   array_includes (dislike p) (id ing) = true ->
     step p lowerDish acc ing =
     mkAcc (a_score acc - 1) (a_liked acc) (a_disliked acc ++ [name ing]) (a_avoid acc)) /\
  (array_includes (avoid p) (id ing) = false ->
   array_includes (like p) (id ing) = false ->
   array_includes (dislike p) (id ing) = false ->
     step p lowerDish acc ing = acc).
Proof.
  intros Hm. unfold step. rewrite Hm. cbn [negb].
  repeat split.
  - intros ->. reflexivity.
  - intros -> ->. reflexivity.
  - intros -> -> ->. reflexivity.
  - intros -> -> ->. reflexivity.
Qed.

Lemma C5_precedence_witness :
  is_match "garlic bread" garlic = true /\
  step (mkProfile ["i1"] ["i1"] ["i1"]) "garlic bread" acc0 garlic =
    mkAcc (-999) [] [] ["garlic"] /\
  step (mkProfile ["i1"] ["i1"] []) "garlic bread" acc0 garlic =
    mkAcc 2 ["garlic"] [] [].
Proof.
  split; [reflexivity|]. split.
  - apply (C5_precedence_avoid_like_dislike
             (mkProfile ["i1"] ["i1"] ["i1"]) "garlic bread" acc0 garlic);
      reflexivity.
  - apply (C5_precedence_avoid_like_dislike
             (mkProfile ["i1"] ["i1"] []) "garlic bread" acc0 garlic);
      reflexivity.
Defined.

(** ** C6: descending order, ties in menu order *)

(** C6.  Whenever the handler returns results, they are the scored dish
    lines rearranged in descending order of score, and for every score the
    entries carrying it appear in the result in the same order as their lines
    appear in the menu text. *)
Theorem C6_sorted_descending_and_stable
    (ings : list Ingredient) (m : string) (p : Profile) (rs : list DishMatch) :
  recommend ings (Some m) (Some p) = Json rs ->
  desc_by_score rs /\
  Permutation rs (map (scoreDish ings p) (dishes m)) /\
  forall s, with_score s rs = with_score s (map (scoreDish ings p) (dishes m)).
Proof.
  unfold recommend. destruct (negb (truthy m)); [discriminate|].
  intros H; injection H as <-. split; [|split].
  - apply array_sort_desc.
  - apply array_sort_perm.
  - intros s. apply array_sort_with_score.
Qed.

Lemma C6_sorted_witness :
  let m := ("Garlic Toast" ++ String newline
             ("Rice" ++ String newline ("Garlic Soup" ++ String newline "Bread")))%string in
  exists rs,
    recommend scenario_catalog (Some m) (Some scenario_profile) = Json rs /\
    map dish rs = ["Garlic Toast"; "Garlic Soup"; "Rice"; "Bread"] /\
    map score rs = [2; 2; 0; 0] /\
    desc_by_score rs /\
    Permutation rs (map (scoreDish scenario_catalog scenario_profile) (dishes m)) /\
    forall s, with_score s rs =
              with_score s (map (scoreDish scenario_catalog scenario_profile) (dishes m)).
Proof.
  cbv zeta. eexists.
  split; [vm_compute; reflexivity|].
  split; [reflexivity|]. split; [reflexivity|].
  apply (C6_sorted_descending_and_stable scenario_catalog _ scenario_profile).
  vm_compute. reflexivity.
Defined.

(** ** C7: resolution *)

(** C7, as stated, fails: only the dish line is lower-cased, so a catalog
    name with a capital letter is never resolved, although it occurs in the
    text even with the same letter case. *)
Lemma C7_capitalised_name_not_resolved :
  occurs_ci "Garlic" "Garlic Bread" /\
  is_match (toLowerCase "Garlic Bread") (mkIngredient "i1" "Garlic" []) = false.
Proof.
  split; [|reflexivity].
  exists ""%string, "Garlic"%string, " Bread"%string. split; reflexivity.
Qed.

(** C7, amended.  Within the ASCII range: for every catalog ingredient whose
    name and aliases are stored in lower case, and every text, the ingredient
    is resolved in the text exactly when its name or one of its aliases
    occurs in the text as a substring with letter case ignored; in particular
    the ingredient "cilantro" with the alias "coriander leaf" is resolved in
    "Coriander Leaf garnish."  (Outside the ASCII range the lower-casing of
    the engine is not letter by letter, and the model does not cover it.) *)
Theorem C7_resolution_lowercase_ascii
    (ings : list Ingredient) (ing : Ingredient) (text : string) :
  In ing ings ->
  is_ascii text = true ->
  is_ascii (name ing) = true /\ toLowerCase (name ing) = name ing ->
  Forall (fun a => is_ascii a = true /\ toLowerCase a = a) (aliases ing) ->
  (In ing (resolved ings text) <->
     occurs_ci (name ing) text \/ Exists (fun a => occurs_ci a text) (aliases ing)) /\
  In (mkIngredient "i3" "cilantro" ["coriander leaf"])
     (resolved [mkIngredient "i3" "cilantro" ["coriander leaf"]]
               "Coriander Leaf garnish.").
Proof.
  intros Hin _ [_ Hn] Ha. split; [|now left].
  unfold resolved. rewrite filter_In.
  unfold is_match. rewrite orb_true_iff, existsb_exists, Exists_exists.
  rewrite occurs_ci_iff, Hn.
  rewrite Forall_forall in Ha.
  split.
  - intros [_ [H | [a [Hia H]]]]; [now left | right].
    exists a. split; [exact Hia|].
    apply occurs_ci_iff. now rewrite (proj2 (Ha _ Hia)).
  - intros H. split; [exact Hin|].
    destruct H as [H | [a [Hia H]]]; [now left | right].
    exists a. split; [exact Hia|].
    apply occurs_ci_iff in H. now rewrite (proj2 (Ha _ Hia)) in H.
Qed.

Lemma C7_resolution_ascii_witness :
  let cilantro := mkIngredient "i3" "cilantro" ["coriander leaf"] in
  let text := "Coriander Leaf garnish."%string in
  In cilantro [garlic; cilantro] /\
  is_ascii text = true /\
  (is_ascii (name cilantro) = true /\ toLowerCase (name cilantro) = name cilantro) /\
  Forall (fun a => is_ascii a = true /\ toLowerCase a = a) (aliases cilantro) /\
  (In cilantro (resolved [garlic; cilantro] text) <->
     occurs_ci (name cilantro) text \/
     Exists (fun a => occurs_ci a text) (aliases cilantro)).
Proof.
  cbv zeta.
  split; [right; now left|]. split; [reflexivity|].
  split; [split; reflexivity|]. split; [repeat constructor|].
  apply (C7_resolution_lowercase_ascii
           [garlic; mkIngredient "i3" "cilantro" ["coriander leaf"]]
           (mkIngredient "i3" "cilantro" ["coriander leaf"])
           "Coriander Leaf garnish.").
  - right. now left.
  - reflexivity.
  - split; reflexivity.
  - repeat constructor.
Defined.

(** ** C8: the score without an avoid hit *)

Lemma filter_filter_andb {A : Type} (f g : A -> bool) (l : list A) :
  filter f (filter g l) = filter (fun x => andb (g x) (f x)) l.
Proof.
  induction l as [|x l IH]; [reflexivity|]. simpl.
  destruct (g x); simpl; [destruct (f x)|]; now rewrite IH.
Qed.

Lemma filter_none {A : Type} (f : A -> bool) (l : list A) :
  (forall x, In x l -> f x = false) -> filter f l = [].
Proof.
  induction l as [|x l IH]; intros H; [reflexivity|]. simpl.
  rewrite (H x (or_introl eq_refl)). apply IH. intros y Hy. apply H. now right.
Qed.

(** C8, as stated, fails: an id listed under both like and dislike counts
    for +2 only, not for +2 and -1. *)
Lemma C8_overlap_counts_as_like_only :
  let p := mkProfile ["i1"] ["i1"] [] in
  let rsv := resolved [garlic] "Garlic Bread" in
  (forall ing, In ing rsv -> in_bucket (avoid p) ing = false) /\
  score (scoreDish [garlic] p "Garlic Bread") = 2 /\
  2 * count (in_bucket (like p)) rsv - 1 * count (in_bucket (dislike p)) rsv = 1.
Proof.
  cbv zeta. split; [|split; vm_compute; reflexivity].
  intros ing [<- | []]. reflexivity.
Qed.

Lemma score_no_avoid_closed_form
    (ings : list Ingredient) (p : Profile) (d : string) :
  (forall ing, In ing (resolved ings d) -> in_bucket (avoid p) ing = false) ->
  score (scoreDish ings p d) =
    2 * count (in_bucket (like p)) (resolved ings d)
    - 1 * count (fun ing => andb (in_bucket (dislike p) ing)
                                 (negb (in_bucket (like p) ing)))
                (resolved ings d).
Proof.
  intros Hno. unfold scoreDish. cbn [score].
  assert (Hav : forall ing, In ing ings ->
                  hits_avoid p (toLowerCase d) ing = false).
  { intros ing Hin. unfold hits_avoid.
    destruct (is_match (toLowerCase d) ing) eqn:Em; [|reflexivity].
    simpl. apply Hno. unfold resolved. apply filter_In. now split. }
  rewrite (run_score_no_avoid p (toLowerCase d) ings acc0 (filter_none _ _ Hav)).
  unfold count, resolved. rewrite !filter_filter_andb.
  assert (El : filter (hits_like p (toLowerCase d)) ings =
               filter (fun x => andb (is_match (toLowerCase d) x)
                                     (in_bucket (like p) x)) ings).
  { apply filter_ext_in. intros ing Hin. specialize (Hav ing Hin).
    unfold hits_like, hits_avoid, in_bucket in *.
    destruct (is_match (toLowerCase d) ing); [|reflexivity].
    simpl in *. now rewrite Hav. }
  assert (Ed : filter (hits_dislike p (toLowerCase d)) ings =
               filter (fun x => andb (is_match (toLowerCase d) x)
                                     (andb (in_bucket (dislike p) x)
                                           (negb (in_bucket (like p) x)))) ings).
  { apply filter_ext_in. intros ing Hin. specialize (Hav ing Hin).
    unfold hits_dislike, hits_avoid, in_bucket in *.
    destruct (is_match (toLowerCase d) ing); [|reflexivity].
    simpl in *. rewrite Hav. simpl.
    destruct (array_includes (like p) (id ing)),
             (array_includes (dislike p) (id ing)); reflexivity. }
  rewrite El, Ed. cbn [a_score acc0]. lia.
Qed.

(** With like and dislike disjoint on the resolved ingredients, the two
    counts are the plain bucket counts. *)
Lemma score_no_avoid_disjoint_buckets
    (ings : list Ingredient) (p : Profile) (d : string) :
  (forall ing, In ing (resolved ings d) -> in_bucket (avoid p) ing = false) ->
  (forall ing, In ing (resolved ings d) ->
     in_bucket (like p) ing = true -> in_bucket (dislike p) ing = false) ->
  score (scoreDish ings p d) =
    2 * count (in_bucket (like p)) (resolved ings d)
    - 1 * count (in_bucket (dislike p)) (resolved ings d).
Proof.
  intros Hno Hdis. rewrite (score_no_avoid_closed_form ings p d Hno).
  unfold count. do 2 f_equal. f_equal. f_equal.
  apply filter_ext_in. intros ing Hin. specialize (Hdis ing Hin).
  destruct (in_bucket (like p) ing), (in_bucket (dislike p) ing);
    try reflexivity.
  now specialize (Hdis eq_refl).
Qed.

(** C8, amended.  For every dish line none of whose resolved ingredients is
    in the avoid set, the score equals 2 times the number of resolved
    ingredients whose id is in the like set, minus 1 times the number of
    resolved ingredients whose id is in the dislike set and not in the like
    set; resolved ingredients in no bucket contribute 0. *)
Theorem C8_score_without_avoid
    (ings : list Ingredient) (p : Profile) (d : string) :
  (forall ing, In ing (resolved ings d) -> in_bucket (avoid p) ing = false) ->
  score (scoreDish ings p d) =
    2 * count (in_bucket (like p)) (resolved ings d)
    - 1 * count (fun ing => andb (in_bucket (dislike p) ing)
                                 (negb (in_bucket (like p) ing)))
                (resolved ings d).
Proof. exact (score_no_avoid_closed_form ings p d). Qed.

Lemma C8_score_witness :
  let p := mkProfile ["i1"] ["i2"] [] in
  (forall ing, In ing (resolved scenario_catalog "Garlic Peanuts")
               -> in_bucket (avoid p) ing = false) /\
  score (scoreDish scenario_catalog p "Garlic Peanuts") = 2 * 1 - 1 * 1.
Proof.
  cbv zeta. split.
  - intros ing _. reflexivity.
  - apply (C8_score_without_avoid scenario_catalog
             (mkProfile ["i1"] ["i2"] []) "Garlic Peanuts").
    intros ing _. reflexivity.
Defined.

(** ** C9 and C10: the matched lists *)

Section MatchedLists.
Variable profile : Profile.
Variable lowerDish : string.

(** Every resolved catalog entry lands in at most one of the three filtered
    lists, and an unresolved one in none: a name cannot occur there more often
    than among the resolved entries. *)
Lemma matched_count_le (n : string) (ings : list Ingredient) :
  (count_occ string_dec
     (map name (filter (hits_like profile lowerDish) ings)
      ++ map name (filter (hits_dislike profile lowerDish) ings)
      ++ map name (filter (hits_avoid profile lowerDish) ings)) n
   <= count_occ string_dec (map name (filter (is_match lowerDish) ings)) n)%nat.
Proof.
  induction ings as [|ing ings IH]; [simpl; lia|].
  rewrite !count_occ_app in *. cbn [filter map].
  pose proof (hits_exclusive profile lowerDish ing) as [Ha Hl].
  destruct (is_match lowerDish ing) eqn:Em.
  - destruct (hits_avoid profile lowerDish ing) eqn:Ea.
    + destruct (Ha eq_refl) as [-> ->].
      cbn [map count_occ]. destruct (string_dec (name ing) n); lia.
    + destruct (hits_like profile lowerDish ing) eqn:El.
      * rewrite (Hl eq_refl).
        cbn [map count_occ]. destruct (string_dec (name ing) n); lia.
      * destruct (hits_dislike profile lowerDish ing);
          cbn [map count_occ]; destruct (string_dec (name ing) n); lia.
  - unfold hits_avoid, hits_like, hits_dislike. rewrite Em. cbn [andb].
    exact IH.
Qed.

Lemma count_occ_filter_le (f : Ingredient -> bool) (n : string)
    (ings : list Ingredient) :
  (count_occ string_dec (map name (filter f ings)) n
   <= count_occ string_dec (map name ings) n)%nat.
Proof.
  induction ings as [|ing ings IH]; [simpl; lia|].
  cbn [filter map]. destruct (f ing); cbn [map count_occ];
    destruct (string_dec (name ing) n); lia.
Qed.

Lemma in_map_filter (f : Ingredient -> bool) (n : string)
    (ings : list Ingredient) :
  In n (map name (filter f ings)) ->
  exists ing, In ing ings /\ name ing = n /\ f ing = true.
Proof.
  rewrite in_map_iff. intros [ing [Hn Hin]].
  apply filter_In in Hin. destruct Hin as [Hin Hf]. now exists ing.
Qed.

Lemma name_injective_on (ings : list Ingredient) (x y : Ingredient) :
  NoDup (map name ings) -> In x ings -> In y ings -> name x = name y -> x = y.
Proof.
  induction ings as [|z ings IH]; intros Hnd Hx Hy Hxy; [contradiction|].
  cbn [map] in Hnd. inversion Hnd as [|? ? Hz Hnd']; subst.
  destruct Hx as [-> | Hx], Hy as [-> | Hy].
  - reflexivity.
  - exfalso. apply Hz. rewrite Hxy. now apply in_map.
  - exfalso. apply Hz. rewrite <- Hxy. now apply in_map.
  - now apply IH.
Qed.

Lemma matched_disjoint (f g : Ingredient -> bool) (n : string)
    (ings : list Ingredient) :
  NoDup (map name ings) ->
  (forall ing, f ing = true -> g ing = false) ->
  ~ (In n (map name (filter f ings)) /\ In n (map name (filter g ings))).
Proof.
  intros Hnd Hex [Hf Hg].
  destruct (in_map_filter _ _ _ Hf) as [x [Hx [Hnx Hfx]]].
  destruct (in_map_filter _ _ _ Hg) as [y [Hy [Hny Hgy]]].
  assert (x = y) by (apply (name_injective_on ings); congruence).
  subst y. rewrite (Hex _ Hfx) in Hgy. discriminate.
Qed.
End MatchedLists.

(** C9.  For every catalog, profile and dish line, a name occurs in the three
    matched lists together at most as often as there are resolved catalog
    entries with that name, hence at most as often as the catalog has entries
    with that name: every catalog entry contributes at most once.  So the
    entry "cilantro" with the alias "coriander leaf" is listed once for a
    line that holds the name twice and the alias as well. *)
Theorem C9_each_entry_contributes_at_most_once
    (ings : list Ingredient) (p : Profile) (d : string) (n : string) :
  let r := scoreDish ings p d in
  let listed :=
    count_occ string_dec (matchedLiked r ++ matchedDisliked r ++ matchedAvoid r) n in
  (listed <= count_occ string_dec (map name (resolved ings d)) n)%nat /\
  (listed <= count_occ string_dec (map name ings) n)%nat /\
  matchedLiked
    (scoreDish [mkIngredient "i3" "cilantro" ["coriander leaf"]]
               (mkProfile ["i3"] [] [])
               "Cilantro rice with coriander leaf and more cilantro")
  = ["cilantro"].
Proof.
  cbv zeta.
  assert (H : (count_occ string_dec
                 (matchedLiked (scoreDish ings p d)
                  ++ matchedDisliked (scoreDish ings p d)
                  ++ matchedAvoid (scoreDish ings p d)) n
               <= count_occ string_dec (map name (resolved ings d)) n)%nat).
  { unfold scoreDish, resolved.
    cbn [matchedLiked matchedDisliked matchedAvoid].
    rewrite run_liked, run_disliked, run_avoid.
    cbn [acc0 a_liked a_disliked a_avoid app].
    apply matched_count_le. }
  split; [exact H|]. split; [|reflexivity].
  eapply Nat.le_trans; [exact H|]. apply count_occ_filter_le.
Qed.

(** C10, as stated, fails: two catalog entries that share a name, one liked
    and one avoided, put that name into matchedLiked and into matchedAvoid. *)
Lemma C10_shared_name_in_two_lists :
  let ings := [mkIngredient "a" "nut" []; mkIngredient "b" "nut" []] in
  let r := scoreDish ings (mkProfile ["a"] [] ["b"]) "Nut Cake" in
  In "nut" (matchedLiked r) /\ In "nut" (matchedAvoid r).
Proof. vm_compute. split; left; reflexivity. Qed.

(** C10, amended.  For a catalog whose ingredient names are pairwise
    distinct, the three matched lists of every DishMatch are pairwise
    disjoint, and the name of a catalog ingredient whose id is in no bucket
    of the profile is in none of them. *)
Theorem C10_matched_lists_disjoint
    (ings : list Ingredient) (p : Profile) (d : string) :
  NoDup (map name ings) ->
  let r := scoreDish ings p d in
  (forall n, ~ (In n (matchedLiked r) /\ In n (matchedDisliked r))) /\
  (forall n, ~ (In n (matchedLiked r) /\ In n (matchedAvoid r))) /\
  (forall n, ~ (In n (matchedDisliked r) /\ In n (matchedAvoid r))) /\
  (forall ing, In ing ings ->
     in_bucket (like p) ing = false ->
     in_bucket (dislike p) ing = false ->
     in_bucket (avoid p) ing = false ->
     ~ In (name ing) (matchedLiked r ++ matchedDisliked r ++ matchedAvoid r)).
Proof.
  intros Hnd. cbv zeta. unfold scoreDish.
  cbn [matchedLiked matchedDisliked matchedAvoid].
  rewrite run_liked, run_disliked, run_avoid.
  cbn [acc0 a_liked a_disliked a_avoid app].
  set (ld := toLowerCase d).
  repeat split.
  - intros n. apply matched_disjoint; [exact Hnd|].
    intros ing. apply (hits_exclusive p ld ing).
  - intros n. apply matched_disjoint; [exact Hnd|].
    intros ing H. destruct (hits_avoid p ld ing) eqn:Ea; [|reflexivity].
    destruct (hits_exclusive p ld ing) as [Ha _].
    destruct (Ha Ea) as [Hl _]. congruence.
  - intros n. apply matched_disjoint; [exact Hnd|].
    intros ing H. destruct (hits_avoid p ld ing) eqn:Ea; [|reflexivity].
    destruct (hits_exclusive p ld ing) as [Ha _].
    destruct (Ha Ea) as [_ Hd]. congruence.
  - intros ing Hin Hl Hd Ha Hn. unfold in_bucket in *.
    rewrite !in_app_iff in Hn.
    destruct Hn as [Hn | [Hn | Hn]];
      apply in_map_filter in Hn; destruct Hn as [x [Hx [Hnx Hfx]]];
      assert (x = ing) by (apply (name_injective_on ings); assumption);
      subst x;
      unfold hits_like, hits_dislike, hits_avoid in Hfx;
      rewrite ?Hl, ?Hd, ?Ha in Hfx;
      destruct (is_match ld ing); simpl in Hfx; discriminate.
Qed.

Lemma C10_disjoint_witness :
  NoDup (map name scenario_catalog) /\
  forall n,
    ~ (In n (matchedLiked (scoreDish scenario_catalog scenario_profile "Garlic Peanuts")) /\
       In n (matchedAvoid (scoreDish scenario_catalog scenario_profile "Garlic Peanuts"))).
Proof.
  assert (Hnd : NoDup (map name scenario_catalog)).
  { repeat constructor; simpl; intuition discriminate. }
  split; [exact Hnd|].
  apply (C10_matched_lists_disjoint scenario_catalog scenario_profile
           "Garlic Peanuts" Hnd).
Defined.

(** ** Further facts about the string primitives *)

Section Characters.

Lemma lower_char_idem (c : ascii) : lower_char (lower_char c) = lower_char c.
Proof. destruct c as [[] [] [] [] [] [] [] []]; reflexivity. Qed.

Lemma lower_char_space (c : ascii) : is_space (lower_char c) = is_space c.
Proof. destruct c as [[] [] [] [] [] [] [] []]; reflexivity. Qed.

Lemma toLowerCase_idem (s : string) : toLowerCase (toLowerCase s) = toLowerCase s.
Proof.
  induction s as [|c s IH]; [reflexivity|].
  cbn [toLowerCase]. now rewrite lower_char_idem, IH.
Qed.

Lemma toLowerCase_length (s : string) :
  String.length (toLowerCase s) = String.length s.
Proof. induction s as [|c s IH]; [reflexivity|]. cbn. now rewrite IH. Qed.

Lemma truthy_toLowerCase (s : string) : truthy (toLowerCase s) = truthy s.
Proof. destruct s; reflexivity. Qed.

Lemma truthy_true_iff (s : string) : truthy s = true <-> s <> EmptyString.
Proof.
  unfold truthy. rewrite negb_true_iff. split.
  - intros H ->. discriminate.
  - intros H. destruct s; [contradiction | reflexivity].
Qed.

Lemma string_app_assoc (a b c : string) :
  ((a ++ b) ++ c)%string = (a ++ b ++ c)%string.
Proof. induction a as [|x a IH]; [reflexivity|]. cbn. now rewrite IH. Qed.

Lemma string_app_nil_r (a : string) : (a ++ "")%string = a.
Proof. induction a as [|x a IH]; [reflexivity|]. cbn. now rewrite IH. Qed.

Lemma includes_empty (t : string) : includes t "" = true.
Proof. destruct t; reflexivity. Qed.

End Characters.

(** ** More on the [/recommend] handler *)

Lemma array_includes_nil (x : string) : array_includes [] x = false.
Proof. reflexivity. Qed.

Lemma sort_equal_scores (k : Z) (l : list DishMatch) :
  Forall (fun r => score r = k) l -> array_sort by_score l = l.
Proof.
  induction l as [|x l IH]; intros H; [reflexivity|].
  inversion H as [|? ? Hx Hl]; subst.
  cbn [array_sort fold_right]. fold (array_sort by_score l). rewrite (IH Hl).
  destruct l as [|y l']; [reflexivity|].
  cbn [sort_insert]. unfold by_score.
  inversion Hl as [|? ? Hy _]; subst. rewrite Hy, Z.sub_diag. reflexivity.
Qed.

Lemma desc_app_le (l1 l2 : list DishMatch) :
  desc_by_score (l1 ++ l2) ->
  forall a b, In a l1 -> In b l2 -> score b <= score a.
Proof.
  unfold desc_by_score.
  induction l1 as [|x l1 IH]; intros Hs a b Ha Hb; [contradiction|].
  cbn [app] in Hs. inversion Hs as [|? ? Hs' Hx]; subst.
  destruct Ha as [<- | Ha].
  - rewrite Forall_forall in Hx. apply Hx. apply in_or_app. now right.
  - now apply IH.
Qed.



Lemma filter_hits_resolved (f : Ingredient -> bool) (ld : string)
    (ings : list Ingredient) :
  filter (fun i => andb (is_match ld i) (f i)) ings =
  filter f (filter (is_match ld) ings).
Proof. now rewrite filter_filter_andb. Qed.

Lemma matched_closed_form
    (ings : list Ingredient) (p : Profile) (d : string) :
  let r := scoreDish ings p d in
  matchedAvoid r =
    map name (filter (in_bucket (avoid p)) (resolved ings d)) /\
  matchedLiked r =
    map name (filter (fun i => andb (negb (in_bucket (avoid p) i))
                                    (in_bucket (like p) i))
                     (resolved ings d)) /\
  matchedDisliked r =
    map name (filter (fun i => andb (negb (in_bucket (avoid p) i))
                                    (andb (negb (in_bucket (like p) i))
                                          (in_bucket (dislike p) i)))
                     (resolved ings d)).
Proof.
  cbv zeta. unfold scoreDish, resolved.
  cbn [matchedLiked matchedDisliked matchedAvoid].
  rewrite run_liked, run_disliked, run_avoid.
  cbn [acc0 a_liked a_disliked a_avoid app].
  rewrite <- !filter_hits_resolved. repeat split.
Qed.

(** The three matched lists hold the names of the resolved catalog entries
    of each class, in catalog order: avoided ones; liked ones that are not
    avoided; disliked ones that are neither avoided nor liked. *)
Theorem matched_lists_in_catalog_order
    (ings : list Ingredient) (p : Profile) (d : string) :
  let r := scoreDish ings p d in
  matchedAvoid r =
    map name (filter (in_bucket (avoid p)) (resolved ings d)) /\
  matchedLiked r =
    map name (filter (fun i => andb (negb (in_bucket (avoid p) i))
                                    (in_bucket (like p) i))
                     (resolved ings d)) /\
  matchedDisliked r =
    map name (filter (fun i => andb (negb (in_bucket (avoid p) i))
                                    (andb (negb (in_bucket (like p) i))
                                          (in_bucket (dislike p) i)))
                     (resolved ings d)).
Proof. exact (matched_closed_form ings p d). Qed.

(** A dish line in which no catalog entry is resolved gets score 0, three
    empty lists and the explanation "Matches liked: none". *)
Theorem nothing_resolved_scores_zero
    (ings : list Ingredient) (p : Profile) (d : string) :
  resolved ings d = [] ->
  scoreDish ings p d = mkDishMatch d 0 [] [] [] "Matches liked: none".
Proof.
  intros Hr. unfold scoreDish.
  assert (Hrun : run ings p (toLowerCase d) acc0 = acc0).
  { unfold resolved in Hr. unfold run.
    generalize acc0 as acc.
    induction ings as [|ing ings IH]; intros acc; [reflexivity|].
    cbn [filter] in Hr. cbn [fold_left]. unfold step at 2.
    destruct (is_match (toLowerCase d) ing); [discriminate|].
    cbn [negb]. now apply IH. }
  rewrite Hrun. reflexivity.
Qed.

Lemma nothing_resolved_witness :
  resolved scenario_catalog "Peanut Satay" = [] /\
  scoreDish scenario_catalog scenario_profile "Peanut Satay" =
    mkDishMatch "Peanut Satay" 0 [] [] [] "Matches liked: none".
Proof.
  split; [reflexivity|].
  apply (nothing_resolved_scores_zero scenario_catalog scenario_profile
           "Peanut Satay").
  reflexivity.
Defined.

(** After an avoid hit the count starts again from -999: when the catalog
    is [pre ++ a :: post], [a] is resolved and avoided, and no resolved entry
    of [post] is avoided, the score is -999 plus the score the dish line gets
    from [post] alone. *)
Theorem score_restarts_at_last_avoid_hit
    (pre post : list Ingredient) (a : Ingredient) (p : Profile) (d : string) :
  is_match (toLowerCase d) a = true ->
  in_bucket (avoid p) a = true ->
  (forall i, In i (resolved post d) -> in_bucket (avoid p) i = false) ->
  score (scoreDish (pre ++ a :: post) p d) = -999 + score (scoreDish post p d) /\
  score (scoreDish post p d) =
    2 * count (in_bucket (like p)) (resolved post d)
    - 1 * count (fun i => andb (in_bucket (dislike p) i)
                               (negb (in_bucket (like p) i)))
                (resolved post d).
Proof.
  intros Hm Ha Hpost. split; [|now apply score_no_avoid_closed_form].
  assert (Hno : filter (hits_avoid p (toLowerCase d)) post = []).
  { apply filter_none. intros i Hi. unfold hits_avoid.
    destruct (is_match (toLowerCase d) i) eqn:Em; [|reflexivity].
    cbn [andb]. apply Hpost. unfold resolved. apply filter_In. now split. }
  unfold scoreDish. cbn [score]. unfold run.
  rewrite fold_left_app. cbn [fold_left].
  fold (run post p (toLowerCase d)
          (step p (toLowerCase d)
             (fold_left (step p (toLowerCase d)) pre acc0) a)).
  fold (run post p (toLowerCase d) acc0).
  rewrite !(run_score_no_avoid p (toLowerCase d) post _ Hno).
  unfold step. unfold in_bucket in Ha. rewrite Hm, Ha. cbn [negb a_score acc0].
  lia.
Qed.

Lemma score_restarts_witness :
  is_match (toLowerCase "Garlic Peanuts") peanuts = true /\
  in_bucket (avoid scenario_profile) peanuts = true /\
  score (scoreDish ([] ++ peanuts :: [garlic]) scenario_profile "Garlic Peanuts")
    = -999 + score (scoreDish [garlic] scenario_profile "Garlic Peanuts").
Proof.
  split; [reflexivity|]. split; [reflexivity|].
  apply (score_restarts_at_last_avoid_hit [] [garlic] peanuts scenario_profile
           "Garlic Peanuts").
  - reflexivity.
  - reflexivity.
  - intros i [<- | []]. reflexivity.
Defined.

Lemma some_filtered_iff_existsb (f : Ingredient -> bool) (l : list Ingredient) :
  (0 <? Z.of_nat (List.length (map name (filter f l)))) = existsb f l.
Proof.
  induction l as [|i l IH]; [reflexivity|].
  cbn [filter existsb]. destruct (f i); [reflexivity | exact IH].
Qed.

(** The explanation announces a rejection exactly when some resolved
    catalog entry is avoided, and then lists the avoided names; otherwise it
    lists the liked names, or "none". *)
Theorem explanation_follows_avoid_hits
    (ings : list Ingredient) (p : Profile) (d : string) :
  let r := scoreDish ings p d in
  explanation r =
    if existsb (in_bucket (avoid p)) (resolved ings d) then
      ("Rejected due to avoid ingredients: " ++ join ", " (matchedAvoid r))%string
    else
      ("Matches liked: " ++
         (if truthy (join ", " (matchedLiked r)) then join ", " (matchedLiked r)
          else "none"))%string.
Proof.
  cbv zeta.
  pose proof (matched_closed_form ings p d) as [Hav _].
  cbv zeta in Hav. unfold scoreDish in *.
  cbn [explanation matchedAvoid matchedLiked] in *.
  unfold explain. rewrite Hav.
  now rewrite some_filtered_iff_existsb.
Qed.

Lemma unlisted_catalog_scores_zero
    (ings : list Ingredient) (p : Profile) (d : string) :
  (forall ing, In ing ings ->
     in_bucket (like p) ing = false /\
     in_bucket (dislike p) ing = false /\
     in_bucket (avoid p) ing = false) ->
  scoreDish ings p d = mkDishMatch d 0 [] [] [] "Matches liked: none".
Proof.
  intros H. unfold scoreDish.
  assert (Hrun : run ings p (toLowerCase d) acc0 = acc0).
  { unfold run. generalize acc0 as acc.
    induction ings as [|ing ings IH]; intros acc; [reflexivity|].
    cbn [fold_left].
    destruct (H ing (or_introl eq_refl)) as [Hl [Hd Ha]].
    unfold in_bucket in *. unfold step at 2. rewrite Ha, Hl, Hd.
    destruct (negb (is_match (toLowerCase d) ing));
      apply IH; intros i Hi; apply H; now right. }
  rewrite Hrun. reflexivity.
Qed.

(** With a profile that lists no id of the catalog (an empty profile in
    particular), the answer is the non-empty lines in menu order, each with
    score 0, no match and the explanation "Matches liked: none". *)
Theorem neutral_profile_keeps_menu_order
    (ings : list Ingredient) (p : Profile) (m : string) :
  m <> EmptyString ->
  (forall ing, In ing ings ->
     in_bucket (like p) ing = false /\
     in_bucket (dislike p) ing = false /\
     in_bucket (avoid p) ing = false) ->
  recommend ings (Some m) (Some p) =
  Json (map (fun d => mkDishMatch d 0 [] [] [] "Matches liked: none") (dishes m)).
Proof.
  intros Hm H. unfold recommend.
  apply truthy_true_iff in Hm. rewrite Hm. cbn [negb]. f_equal.
  rewrite (map_ext _ (fun d => mkDishMatch d 0 [] [] [] "Matches liked: none")
             (fun d => unlisted_catalog_scores_zero ings p d H)).
  apply (sort_equal_scores 0).
  apply Forall_forall. intros r Hr. apply in_map_iff in Hr.
  destruct Hr as [d [<- _]]. reflexivity.
Qed.

Lemma neutral_profile_witness :
  scenario_menu <> EmptyString /\
  recommend scenario_catalog (Some scenario_menu) (Some (mkProfile [] [] [])) =
  Json [ mkDishMatch "Garlic Chicken" 0 [] [] [] "Matches liked: none";
         mkDishMatch "Peanut Satay" 0 [] [] [] "Matches liked: none" ].
Proof.
  split; [discriminate|].
  apply (neutral_profile_keeps_menu_order scenario_catalog (mkProfile [] [] [])
           scenario_menu).
  - discriminate.
  - intros ing _. repeat split.
Defined.

(** The letter case of a dish line has no effect on its score, its matched
    lists and its explanation: the lower-cased line gets the same ones. *)
Lemma dish_case_is_ignored
    (ings : list Ingredient) (p : Profile) (d : string) :
  let r := scoreDish ings p d in
  let r' := scoreDish ings p (toLowerCase d) in
  score r' = score r /\
  matchedLiked r' = matchedLiked r /\
  matchedDisliked r' = matchedDisliked r /\
  matchedAvoid r' = matchedAvoid r /\
  explanation r' = explanation r.
Proof.
  cbv zeta. unfold scoreDish. rewrite toLowerCase_idem. repeat split.
Qed.

(** A catalog entry with an empty name or an empty alias is resolved in
    every dish line; if its id is avoided, every dish line lists it under
    matchedAvoid. *)
Theorem empty_name_or_alias_matches_every_line
    (ings : list Ingredient) (p : Profile) (ing : Ingredient) (d : string) :
  name ing = EmptyString \/ In EmptyString (aliases ing) ->
  In ing ings ->
  in_bucket (avoid p) ing = true ->
  is_match (toLowerCase d) ing = true /\
  In (name ing) (matchedAvoid (scoreDish ings p d)).
Proof.
  intros He Hin Ha.
  assert (Hm : is_match (toLowerCase d) ing = true).
  { unfold is_match. apply orb_true_iff. destruct He as [-> | He].
    - left. apply includes_empty.
    - right. apply existsb_exists. exists EmptyString.
      split; [exact He | apply includes_empty]. }
  split; [exact Hm|].
  destruct (matched_closed_form ings p d) as [-> _].
  apply in_map. apply filter_In. split; [|exact Ha].
  unfold resolved. apply filter_In. now split.
Qed.

Lemma empty_alias_witness :
  let salt := mkIngredient "i9" "salt" [""] in
  In EmptyString (aliases salt) /\
  is_match (toLowerCase "Garlic Chicken") salt = true /\
  In (name salt)
     (matchedAvoid (scoreDish [garlic; salt] (mkProfile [] [] ["i9"]) "Garlic Chicken")).
Proof.
  cbv zeta. split; [now left|].
  apply (empty_name_or_alias_matches_every_line
           [garlic; mkIngredient "i9" "salt" [""]] (mkProfile [] [] ["i9"])
           (mkIngredient "i9" "salt" [""]) "Garlic Chicken").
  - right. now left.
  - right. now left.
  - reflexivity.
Defined.

(** The client renders the first ten entries of the answer; no entry it
    leaves out scores higher than one it renders. *)
Theorem shown_are_the_best
    (ings : list Ingredient) (m : string) (p : Profile) (rs : list DishMatch) :
  recommend ings (Some m) (Some p) = Json rs ->
  (forall a b, In a (AppTsx.shown rs) -> In b (skipn 10 rs) -> score b <= score a) /\
  AppTsx.shown rs ++ skipn 10 rs = rs /\
  List.length (AppTsx.shown rs) = Nat.min 10 (List.length rs).
Proof.
  intros H. unfold AppTsx.shown. split; [|split].
  - apply desc_app_le. rewrite firstn_skipn.
    unfold recommend in H. destruct (negb (truthy m)); [discriminate|].
    injection H as <-. apply array_sort_desc.
  - apply firstn_skipn.
  - apply length_firstn.
Qed.

Lemma shown_witness :
  exists rs,
    recommend scenario_catalog (Some scenario_menu) (Some scenario_profile) = Json rs /\
    (forall a b, In a (AppTsx.shown rs) -> In b (skipn 10 rs) -> score b <= score a) /\
    AppTsx.shown rs ++ skipn 10 rs = rs /\
    List.length (AppTsx.shown rs) = Nat.min 10 (List.length rs).
Proof.
  eexists. split; [vm_compute; reflexivity|].
  apply (shown_are_the_best scenario_catalog scenario_menu scenario_profile).
  vm_compute. reflexivity.
Defined.

(** ** The [/ingredients] search *)

Section Search.
Variable ings : list Ingredient.

Lemma or_empty_some (q : string) : or_empty (Some q) = q.
Proof. destruct q; reflexivity. Qed.

Lemma search_nonempty (q : string) :
  q <> EmptyString ->
  search ings (Some q) = filter (mentions (toLowerCase q)) ings.
Proof.
  intros Hq. unfold search. rewrite or_empty_some, truthy_toLowerCase.
  apply truthy_true_iff in Hq. now rewrite Hq.
Qed.

Lemma mentions_iff (q : string) (ing : Ingredient) :
  mentions q ing = true <->
  (exists pre post, name ing = (pre ++ q ++ post)%string) \/
  Exists (fun a => exists pre post, a = (pre ++ q ++ post)%string) (aliases ing).
Proof.
  unfold mentions. rewrite orb_true_iff, includes_iff, existsb_exists, Exists_exists.
  split; (intros [H | [a [Hin H]]]; [now left | right; exists a; split; [exact Hin|]]).
  - now apply includes_iff.
  - now apply includes_iff in H.
Qed.

Lemma mentions_middle (q0 q1 q2 : string) (ing : Ingredient) :
  mentions (q0 ++ q1 ++ q2)%string ing = true -> mentions q1 ing = true.
Proof.
  assert (Hsub : forall t, includes t (q0 ++ q1 ++ q2)%string = true ->
                           includes t q1 = true).
  { intros t H. apply includes_iff in H. destruct H as [pre [post ->]].
    apply includes_iff. exists (pre ++ q0)%string, (q2 ++ post)%string.
    now rewrite !string_app_assoc. }
  unfold mentions. rewrite !orb_true_iff, !existsb_exists.
  intros [H | [a [Hin H]]]; [left | right; exists a; split; [exact Hin|]];
    now apply Hsub.
Qed.

Lemma search_incl (q : option string) : incl (search ings q) ings.
Proof.
  unfold search. destruct (negb (truthy (toLowerCase (or_empty q)))).
  - apply incl_refl.
  - intros x Hx. now apply filter_In in Hx.
Qed.

(** A non-empty query finds exactly the catalog entries whose stored name,
    or one of whose stored aliases, contains the lower-cased query as a
    substring. *)
Theorem search_finds_exactly (q : string) (ing : Ingredient) :
  q <> EmptyString ->
  (In ing (search ings (Some q)) <->
   In ing ings /\
   ((exists pre post, name ing = (pre ++ toLowerCase q ++ post)%string) \/
    Exists (fun a => exists pre post, a = (pre ++ toLowerCase q ++ post)%string)
           (aliases ing))).
Proof.
  intros Hq. rewrite (search_nonempty q Hq), filter_In, mentions_iff. reflexivity.
Qed.

(** The answer is always a selection of the catalog in catalog order; without
    a query, or with the empty query, it is the whole catalog. *)
Lemma search_selects_from_catalog (q : option string) :
  (exists keep, search ings q = filter keep ings) /\
  search ings None = ings /\
  search ings (Some EmptyString) = ings.
Proof.
  split; [|split; reflexivity].
  unfold search. destruct (negb (truthy (toLowerCase (or_empty q)))).
  - exists (fun _ => true). induction ings as [|x l IH]; [reflexivity|].
    cbn [filter]. now rewrite <- IH.
  - eexists. reflexivity.
Qed.

(** Extending a query of ASCII characters, in front or behind, by ASCII
    characters can only narrow the answer.  (Outside the ASCII range the
    lower-casing of a query is not letter by letter.) *)
Theorem search_narrows_ascii (q0 q1 q2 : string) :
  is_ascii q0 = true -> is_ascii q1 = true -> is_ascii q2 = true ->
  incl (search ings (Some (q0 ++ q1 ++ q2)%string)) (search ings (Some q1)).
Proof.
  intros _ _ _ x Hx.
  destruct (string_dec q1 EmptyString) as [-> | Hq1].
  - change (search ings (Some EmptyString)) with ings.
    now apply (search_incl (Some (q0 ++ "" ++ q2)%string)).
  - assert (Hq : (q0 ++ q1 ++ q2)%string <> EmptyString).
    { destruct q0; [|discriminate]. destruct q1; [contradiction | discriminate]. }
    rewrite (search_nonempty _ Hq) in Hx.
    rewrite (search_nonempty _ Hq1).
    apply filter_In in Hx. destruct Hx as [Hin Hm].
    apply filter_In. split; [exact Hin|].
    rewrite !toLowerCase_app in Hm.
    now apply mentions_middle in Hm.
Qed.

(** The letter case of the query does not matter. *)
Theorem search_ignores_query_case (q : string) :
  search ings (Some (toLowerCase q)) = search ings (Some q).
Proof.
  unfold search. now rewrite !or_empty_some, toLowerCase_idem.
Qed.

(** A catalog entry stored in lower case is found by a non-empty query
    exactly when the query occurs in its name or in one of its aliases with
    letter case ignored. *)
Theorem search_lowercase_entry (q : string) (ing : Ingredient) :
  q <> EmptyString ->
  In ing ings ->
  toLowerCase (name ing) = name ing ->
  Forall (fun a => toLowerCase a = a) (aliases ing) ->
  (In ing (search ings (Some q)) <->
   occurs_ci q (name ing) \/ Exists (fun a => occurs_ci q a) (aliases ing)).
Proof.
  intros Hq Hin Hn Ha. rewrite (search_nonempty q Hq), filter_In.
  unfold mentions. rewrite orb_true_iff, existsb_exists, Exists_exists.
  rewrite occurs_ci_iff, Hn. rewrite Forall_forall in Ha.
  split.
  - intros [_ [H | [a [Hia H]]]]; [now left | right].
    exists a. split; [exact Hia|]. apply occurs_ci_iff. now rewrite (Ha _ Hia).
  - intros H. split; [exact Hin|]. destruct H as [H | [a [Hia H]]]; [now left | right].
    exists a. split; [exact Hia|]. apply occurs_ci_iff in H. now rewrite (Ha _ Hia) in H.
Qed.

(** The picker sends a query only when, trimmed, it has two characters or
    more; the search then never falls back to the whole catalog: every entry
    of the answer contains the lower-cased query. *)
Theorem picker_query_is_selective (ingredientQuery q : string) :
  AppTsx.ingredientRequest ingredientQuery = Some q ->
  q = trim ingredientQuery /\
  (2 <= String.length q)%nat /\
  search ings (Some q) = filter (mentions (toLowerCase q)) ings /\
  Forall (fun ing => mentions (toLowerCase q) ing = true) (search ings (Some q)).
Proof.
  unfold AppTsx.ingredientRequest. intros H.
  destruct (Nat.ltb (String.length (trim ingredientQuery)) 2) eqn:E; [discriminate|].
  injection H as <-. apply Nat.ltb_ge in E.
  assert (Hq : trim ingredientQuery <> EmptyString).
  { intros H0. rewrite H0 in E. cbn in E. lia. }
  split; [reflexivity|]. split; [exact E|].
  split; [now apply search_nonempty|].
  rewrite (search_nonempty _ Hq). apply Forall_forall. intros x Hx.
  now apply filter_In in Hx.
Qed.
End Search.

Lemma search_narrows_witness :
  is_ascii "Ground"%string = true /\
  incl (search scenario_catalog (Some ("Ground" ++ "NUT" ++ "")%string))
       (search scenario_catalog (Some "NUT")) /\
  search scenario_catalog (Some "GroundNUT") = [peanuts] /\
  search scenario_catalog (Some "NUT") = [peanuts].
Proof.
  split; [reflexivity|]. split; [|split; reflexivity].
  apply (search_narrows_ascii scenario_catalog "Ground" "NUT" ""); reflexivity.
Defined.

Lemma search_finds_witness :
  "Nut"%string <> EmptyString /\
  (In peanuts (search scenario_catalog (Some "Nut")) <->
   In peanuts scenario_catalog /\
   ((exists pre post, name peanuts = (pre ++ toLowerCase "Nut" ++ post)%string) \/
    Exists (fun a => exists pre post, a = (pre ++ toLowerCase "Nut" ++ post)%string)
           (aliases peanuts))).
Proof.
  split; [discriminate|].
  apply (search_finds_exactly scenario_catalog "Nut" peanuts). discriminate.
Defined.

Lemma search_lowercase_witness :
  In peanuts (search scenario_catalog (Some "GROUND")) <->
  occurs_ci "GROUND" (name peanuts) \/
  Exists (fun a => occurs_ci "GROUND" a) (aliases peanuts).
Proof.
  apply (search_lowercase_entry scenario_catalog "GROUND" peanuts).
  - discriminate.
  - right. now left.
  - reflexivity.
  - repeat constructor.
Defined.

Lemma picker_query_witness :
  AppTsx.ingredientRequest " Ga " = Some "Ga"%string /\
  search scenario_catalog (Some "Ga") =
    filter (mentions (toLowerCase "Ga")) scenario_catalog.
Proof.
  split; [reflexivity|].
  apply (picker_query_is_selective scenario_catalog " Ga " "Ga"). reflexivity.
Defined.

(** ** The ingredient picker of the client *)

Section PickerFacts.
Import AppTsx.

Lemma array_includes_iff (xs : list string) (x : string) :
  array_includes xs x = true <-> In x xs.
Proof.
  unfold array_includes. rewrite existsb_exists. split.
  - intros [y [Hy He]]. apply String.eqb_eq in He. now subst.
  - intros H. exists x. split; [exact H | apply String.eqb_refl].
Qed.

Lemma array_includes_false_iff (xs : list string) (x : string) :
  array_includes xs x = false <-> ~ In x xs.
Proof.
  rewrite <- array_includes_iff. destruct (array_includes xs x); split;
    congruence.
Qed.

Lemma NoDup_app_inv {A : Type} (a b : list A) :
  NoDup (a ++ b) -> NoDup a /\ NoDup b /\ (forall x, In x a -> ~ In x b).
Proof.
  induction a as [|y a IH]; cbn [app]; intros H.
  - split; [constructor|]. split; [exact H|]. intros x [].
  - inversion H as [|? ? Hy Hab]; subst.
    destruct (IH Hab) as [Ha [Hb Hd]]. split; [|split].
    + constructor; [|exact Ha]. intros Hin. apply Hy. apply in_or_app. now left.
    + exact Hb.
    + intros x [<- | Hx]; [|now apply Hd].
      intros Hin. apply Hy. apply in_or_app. now right.
Qed.

Lemma NoDup_shrink3 {A : Type} (a b c a' b' c' : list A) :
  NoDup a' -> NoDup b' -> NoDup c' ->
  incl a' a -> incl b' b -> incl c' c ->
  NoDup (a ++ b ++ c) -> NoDup (a' ++ b' ++ c').
Proof.
  intros Na Nb Nc Ia Ib Ic H.
  destruct (NoDup_app_inv _ _ H) as [_ [Hbc Hd1]].
  destruct (NoDup_app_inv _ _ Hbc) as [_ [_ Hd2]].
  apply NoDup_app; [exact Na | |].
  - apply NoDup_app; [exact Nb | exact Nc |].
    intros x Hx Hx'. apply (Hd2 x); auto.
  - intros x Hx Hx'. apply (Hd1 x); [auto|].
    apply in_app_or in Hx'. apply in_or_app. destruct Hx'; auto.
Qed.

Lemma selected_after_append (p : Profile) (b : BucketKey) (i : string) :
  Permutation (selectedIds (set_bucket p b (get_bucket p b ++ [i])))
              (i :: selectedIds p).
Proof.
  unfold selectedIds. destruct b; cbn [set_bucket get_bucket like dislike avoid].
  - rewrite <- app_assoc. cbn [app]. symmetry. apply Permutation_middle.
  - rewrite <- app_assoc. cbn [app]. rewrite !app_assoc.
    symmetry. apply Permutation_middle.
  - rewrite !app_assoc. symmetry. apply Permutation_cons_append.
Qed.

Lemma selected_after_filter (p : Profile) (b : BucketKey) (f : string -> bool) :
  NoDup (selectedIds p) ->
  NoDup (selectedIds (set_bucket p b (filter f (get_bucket p b)))) /\
  incl (selectedIds (set_bucket p b (filter f (get_bucket p b)))) (selectedIds p).
Proof.
  intros H. unfold selectedIds in *.
  destruct (NoDup_app_inv _ _ H) as [Hl [Hda _]].
  destruct (NoDup_app_inv _ _ Hda) as [Hd [Ha _]].
  assert (Hf : forall l : list string, incl (filter f l) l).
  { intros l x Hx. now apply filter_In in Hx. }
  destruct b; cbn [set_bucket get_bucket like dislike avoid]; split.
  - apply (NoDup_shrink3 (like p) (dislike p) (avoid p));
      auto using NoDup_filter, incl_refl.
  - apply incl_app_app; [apply Hf | apply incl_refl].
  - apply (NoDup_shrink3 (like p) (dislike p) (avoid p));
      auto using NoDup_filter, incl_refl.
  - apply incl_app_app; [apply incl_refl|].
    apply incl_app_app; [apply Hf | apply incl_refl].
  - apply (NoDup_shrink3 (like p) (dislike p) (avoid p));
      auto using NoDup_filter, incl_refl.
  - apply incl_app_app; [apply incl_refl|].
    apply incl_app_app; [apply incl_refl | apply Hf].
Qed.

Lemma act_keeps_NoDup (st : Picker) (a : Action) :
  NoDup (selectedIds (profile st)) ->
  NoDup (selectedIds (profile (act st a))).
Proof.
  intros H. destruct a as [ing | b i | b]; cbn [act].
  - unfold addIngredient.
    destruct (array_includes (selectedIds (profile st)) (id ing)) eqn:E;
      [exact H|].
    cbn [profile]. apply array_includes_false_iff in E.
    eapply Permutation_NoDup.
    + symmetry. apply selected_after_append.
    + now constructor.
  - unfold removeIngredient. cbn [profile].
    now apply selected_after_filter.
  - exact H.
Qed.

Lemma run_keeps_NoDup (actions : list Action) (st : Picker) :
  NoDup (selectedIds (profile st)) ->
  NoDup (selectedIds (profile (fold_left act actions st))).
Proof.
  revert st. induction actions as [|a actions IH]; intros st H; [exact H|].
  cbn [fold_left]. apply IH. now apply act_keeps_NoDup.
Qed.

(** Whatever the user clicks, starting from the empty profile, no
    ingredient id is ever in two buckets or twice in one bucket. *)
Theorem picker_keeps_buckets_disjoint (actions : list Action) :
  let p := profile (fold_left act actions initial) in
  NoDup (like p ++ dislike p ++ avoid p) /\
  (forall i, In i (like p) -> ~ In i (dislike p) /\ ~ In i (avoid p)) /\
  (forall i, In i (dislike p) -> ~ In i (avoid p)).
Proof.
  cbv zeta.
  assert (H : NoDup (selectedIds (profile (fold_left act actions initial)))).
  { apply run_keeps_NoDup. constructor. }
  unfold selectedIds in H. split; [exact H|].
  destruct (NoDup_app_inv _ _ H) as [_ [Hda Hd1]].
  destruct (NoDup_app_inv _ _ Hda) as [_ [_ Hd2]].
  split.
  - intros i Hi. split; intros Hx; apply (Hd1 i Hi); apply in_or_app; auto.
  - exact Hd2.
Qed.

(** Adding an ingredient that is not selected and removing it again from
    the active bucket gives back the profile. *)
Theorem add_then_remove_restores (st : Picker) (ing : Ingredient) :
  ~ In (id ing) (selectedIds (profile st)) ->
  profile (removeIngredient (addIngredient st ing) (activeBucket st) (id ing))
  = profile st.
Proof.
  intros Hn. unfold addIngredient.
  apply array_includes_false_iff in Hn. rewrite Hn.
  apply array_includes_false_iff in Hn.
  unfold removeIngredient. cbn [profile activeBucket].
  assert (Hf : forall l : list string, ~ In (id ing) l ->
            filter (fun x => negb (String.eqb x (id ing))) (l ++ [id ing]) = l).
  { intros l Hl. rewrite filter_app. cbn [filter].
    rewrite String.eqb_refl. cbn [negb]. rewrite app_nil_r.
    induction l as [|x l IH]; [reflexivity|]. cbn [filter].
    destruct (String.eqb x (id ing)) eqn:E.
    - apply String.eqb_eq in E. exfalso. apply Hl. now left.
    - cbn [negb]. f_equal. apply IH. intros H. apply Hl. now right. }
  unfold selectedIds in Hn.
  destruct (profile st) as [l d a]. cbn [like dislike avoid] in Hn.
  destruct (activeBucket st); cbn [set_bucket get_bucket like dislike avoid];
    rewrite Hf; try reflexivity; intros H; apply Hn;
    repeat (apply in_or_app; auto; right).
Qed.

Lemma add_then_remove_witness :
  ~ In (id garlic) (selectedIds (profile initial)) /\
  profile (removeIngredient (addIngredient initial garlic)
             (activeBucket initial) (id garlic))
  = profile initial.
Proof.
  split; [intros []|].
  apply (add_then_remove_restores initial garlic). intros [].
Defined.

(** After [addIngredient] the id is selected, whether it was added or was
    there already; after [removeIngredient] it is gone from that bucket and
    the other two buckets are as before. *)
Theorem add_selects_remove_unselects
    (st : Picker) (ing : Ingredient) (b : BucketKey) (i : string) :
  In (id ing) (selectedIds (profile (addIngredient st ing))) /\
  ~ In i (get_bucket (profile (removeIngredient st b i)) b) /\
  (forall b', b' <> b ->
     get_bucket (profile (removeIngredient st b i)) b' =
     get_bucket (profile st) b').
Proof.
  split; [|split].
  - unfold addIngredient.
    destruct (array_includes (selectedIds (profile st)) (id ing)) eqn:E.
    + now apply array_includes_iff.
    + cbn [profile]. eapply Permutation_in.
      * symmetry. apply selected_after_append.
      * now left.
  - unfold removeIngredient. cbn [profile].
    assert (Hf : forall l : list string,
              ~ In i (filter (fun x => negb (String.eqb x i)) l)).
    { intros l H. apply filter_In in H. destruct H as [_ H].
      rewrite String.eqb_refl in H. discriminate. }
    destruct b; cbn [set_bucket get_bucket like dislike avoid]; apply Hf.
  - intros b' Hb. unfold removeIngredient. cbn [profile].
    destruct b, b'; try contradiction; reflexivity.
Qed.
End PickerFacts.

Section PickerNames.
Import AppTsx.

Lemma names_cached_step (actions : list Action) (st : Picker) (a : Action) :
  NoDup (selectedIds (profile st)) ->
  names_cached actions st ->
  names_cached (actions ++ [a]) (act st a).
Proof.
  intros Hnd Hc i Hi.
  assert (Hold : In i (selectedIds (profile st)) ->
            exists ing, In (Add ing) (actions ++ [a]) /\ id ing = i /\
                        lookup i (ingredientNameById st) = Some (name ing)).
  { intros H. destruct (Hc i H) as [ing [Hin [He Hl]]].
    exists ing. split; [apply in_or_app; now left | now split]. }
  destruct a as [ing0 | b j | b]; cbn [act] in *.
  - unfold addIngredient in *.
    destruct (array_includes (selectedIds (profile st)) (id ing0)) eqn:E;
      [now apply Hold|].
    cbn [profile ingredientNameById lookup] in *.
    apply (Permutation_in _ (selected_after_append _ _ _)) in Hi.
    destruct (String.eqb (id ing0) i) eqn:Ei.
    + apply String.eqb_eq in Ei. exists ing0.
      split; [apply in_or_app; right; now left | now split].
    + destruct Hi as [Hi | Hi].
      * rewrite Hi, String.eqb_refl in Ei. discriminate.
      * destruct (Hc i Hi) as [ing [Hin [He Hl]]].
        exists ing. split; [apply in_or_app; now left | now split].
  - unfold removeIngredient in *. cbn [profile ingredientNameById] in *.
    apply Hold. eapply (proj2 (selected_after_filter _ _ _ Hnd)). exact Hi.
  - now apply Hold.
Qed.

Lemma names_cached_run (actions : list Action) :
  names_cached actions (fold_left act actions initial).
Proof.
  induction actions as [|a actions IH] using rev_ind.
  - intros i [].
  - rewrite fold_left_app. cbn [fold_left].
    apply names_cached_step; [|exact IH].
    apply run_keeps_NoDup. constructor.
Qed.

(** Whatever the user clicks, every id in the profile is displayed under
    the catalog name of an ingredient that was added with that id, never
    under the bare id. *)
Theorem selected_ids_have_names (actions : list Action) (i : string) :
  let st := fold_left act actions initial in
  In i (selectedIds (profile st)) ->
  exists ing, In (Add ing) actions /\ id ing = i /\ nameForId st i = name ing.
Proof.
  cbv zeta. intros Hi.
  destruct (names_cached_run actions i Hi) as [ing [Hin [He Hl]]].
  exists ing. split; [exact Hin|]. split; [exact He|].
  unfold nameForId. now rewrite Hl.
Qed.

Lemma selected_ids_witness :
  let actions := [Add garlic; Activate KAvoid; Add peanuts] in
  In "i2"%string (selectedIds (profile (fold_left act actions initial))) /\
  exists ing, In (Add ing) actions /\ id ing = "i2"%string /\
              nameForId (fold_left act actions initial) "i2" = name ing.
Proof.
  cbv zeta. split; [right; now left|].
  apply (selected_ids_have_names [Add garlic; Activate KAvoid; Add peanuts] "i2").
  right. now left.
Defined.

(** For a profile built with the picker, a dish line without a resolved
    avoided ingredient scores 2 for every resolved liked ingredient and -1
    for every resolved disliked one. *)
Theorem picker_profile_scores_by_bucket_counts
    (actions : list Action) (ings : list Ingredient) (d : string) :
  let p := profile (fold_left act actions initial) in
  (forall ing, In ing (resolved ings d) -> in_bucket (avoid p) ing = false) ->
  score (scoreDish ings p d) =
    2 * count (in_bucket (like p)) (resolved ings d)
    - 1 * count (in_bucket (dislike p)) (resolved ings d).
Proof.
  cbv zeta. intros Hno.
  apply score_no_avoid_disjoint_buckets; [exact Hno|].
  intros ing _ Hl. unfold in_bucket in *.
  apply array_includes_iff in Hl. apply array_includes_false_iff.
  assert (H : NoDup (selectedIds (profile (fold_left act actions initial)))).
  { apply run_keeps_NoDup. constructor. }
  unfold selectedIds in H.
  destruct (NoDup_app_inv _ _ H) as [_ [_ Hd]].
  intros Hx. apply (Hd _ Hl). apply in_or_app. now left.
Qed.

Lemma picker_profile_scores_witness :
  let actions := [Add garlic; Activate KDislike; Add garlic; Add peanuts] in
  let p := profile (fold_left act actions initial) in
  p = mkProfile ["i1"] ["i2"] [] /\
  score (scoreDish scenario_catalog p "Garlic Peanuts") =
    2 * count (in_bucket (like p)) (resolved scenario_catalog "Garlic Peanuts")
    - 1 * count (in_bucket (dislike p)) (resolved scenario_catalog "Garlic Peanuts").
Proof.
  cbv zeta. split; [reflexivity|].
  apply (picker_profile_scores_by_bucket_counts
           [Add garlic; Activate KDislike; Add garlic; Add peanuts]
           scenario_catalog "Garlic Peanuts").
  intros ing _. reflexivity.
Defined.
End PickerNames.

(** ** Trimming *)

Section Trimming.

Lemma trimStart_not_blank (s : string) : starts_blank (trimStart s) = false.
Proof.
  induction s as [|c s IH]; [reflexivity|]. cbn [trimStart].
  destruct (is_space c) eqn:E; [exact IH | exact E].
Qed.

Lemma trimStart_fix (s : string) : starts_blank s = false -> trimStart s = s.
Proof. destruct s as [|c s]; [reflexivity|]. cbn. now intros ->. Qed.

Lemma trimEnd_keeps_head (s : string) :
  starts_blank s = false -> starts_blank (trimEnd s) = false.
Proof.
  destruct s as [|c s]; [reflexivity|]. cbn [starts_blank trimEnd]. intros E.
  destruct (trimEnd s); [rewrite E|]; exact E.
Qed.

Lemma trimEnd_cons (c : ascii) (s : string) :
  trimEnd (String c s) =
  match trimEnd s with
  | EmptyString => if is_space c then EmptyString else String c EmptyString
  | String c' r' => String c (String c' r')
  end.
Proof. reflexivity. Qed.

Lemma trimEnd_idem (s : string) : trimEnd (trimEnd s) = trimEnd s.
Proof.
  induction s as [|c s IH]; [reflexivity|]. rewrite trimEnd_cons.
  destruct (trimEnd s) as [|c' r'] eqn:E.
  - destruct (is_space c) eqn:Ec; [reflexivity|].
    rewrite trimEnd_cons. cbn [trimEnd]. now rewrite Ec.
  - rewrite trimEnd_cons, IH. reflexivity.
Qed.

Lemma trim_not_blank (s : string) : starts_blank (trim s) = false.
Proof. apply trimEnd_keeps_head, trimStart_not_blank. Qed.

Lemma trim_idem (s : string) : trim (trim s) = trim s.
Proof.
  unfold trim at 1. rewrite (trimStart_fix _ (trim_not_blank s)).
  apply trimEnd_idem.
Qed.

Lemma trimEnd_empty_iff (s : string) :
  trimEnd s = EmptyString <-> all_blank s = true.
Proof.
  unfold all_blank. induction s as [|c s IH]; [split; reflexivity|].
  cbn [trimEnd list_ascii_of_string forallb]. rewrite andb_true_iff, <- IH.
  destruct (trimEnd s) as [|c' r'].
  - destruct (is_space c); split; try discriminate; try tauto.
    intros [H _]; discriminate.
  - split; [discriminate | intros [_ H]; discriminate].
Qed.

Lemma trim_empty_iff (s : string) :
  trim s = EmptyString <-> all_blank s = true.
Proof.
  unfold trim. induction s as [|c s IH]; [split; reflexivity|].
  cbn [trimStart]. destruct (is_space c) eqn:E.
  - rewrite IH. unfold all_blank. cbn [list_ascii_of_string forallb].
    now rewrite E.
  - unfold all_blank. cbn [list_ascii_of_string forallb trimEnd]. rewrite E.
    cbn [andb]. destruct (trimEnd s); split; discriminate.
Qed.

Lemma first_line_kept (s : string) :
  s <> EmptyString -> starts_blank s = false -> dishes s <> [].
Proof.
  destruct s as [|c s]; [contradiction|]. intros _ E. cbn [starts_blank] in E.
  unfold dishes. cbn [split_newline].
  destruct (Ascii.eqb c newline) eqn:En.
  - apply Ascii.eqb_eq in En. subst c. discriminate E.
  - destruct (split_newline s); cbn [filter truthy]; discriminate.
Qed.

End Trimming.

(** ** What the client posts *)

(** The text that [analyzeMenu] posts is the trimmed menu text, and the
    handler always accepts it: it answers with results, at least one. *)
Theorem analyze_request_is_served
    (ings : list Ingredient) (menuText : string) (p q : Profile) (text : string) :
  AppTsx.analyzeRequest menuText p = inr (text, q) ->
  text = trim menuText /\ q = p /\
  exists rs, recommend ings (Some text) (Some q) = Json rs /\ rs <> [].
Proof.
  unfold AppTsx.analyzeRequest. intros H.
  destruct (truthy (trim menuText)) eqn:Et; cbn [negb] in H; [|discriminate].
  injection H as <- <-. split; [reflexivity|]. split; [reflexivity|].
  unfold recommend. rewrite Et. cbn [negb]. eexists. split; [reflexivity|].
  intros Hnil.
  apply (first_line_kept (trim menuText)).
  - now apply truthy_true_iff.
  - apply trim_not_blank.
  - apply (f_equal (@List.length _)) in Hnil.
    rewrite (Permutation_length (array_sort_perm _)), length_map in Hnil.
    now apply length_zero_iff_nil in Hnil.
Qed.

Lemma analyze_request_witness :
  AppTsx.analyzeRequest "  Garlic Chicken " scenario_profile
    = inr ("Garlic Chicken"%string, scenario_profile) /\
  exists rs,
    recommend scenario_catalog (Some "Garlic Chicken") (Some scenario_profile)
      = Json rs /\ rs <> [].
Proof.
  split; [reflexivity|].
  apply (analyze_request_is_served scenario_catalog "  Garlic Chicken "
           scenario_profile scenario_profile "Garlic Chicken").
  reflexivity.
Defined.

(** [analyzeMenu] stops with "Paste menu text first." exactly when the menu
    text is empty or made of white space only; nothing is posted then. *)
Theorem analyze_refuses_blank_text (menuText : string) (p : Profile) :
  AppTsx.analyzeRequest menuText p = inl "Paste menu text first."%string <->
  all_blank menuText = true.
Proof.
  rewrite <- trim_empty_iff. unfold AppTsx.analyzeRequest.
  destruct (trim menuText) as [|c r]; cbn [truthy negb String.eqb];
    split; try reflexivity; discriminate.
Qed.

(** ** The stable sort, for any integer key *)

Section KeySort.
Context {A : Type} (key : A -> Z).

Lemma key_insert_perm (x : A) (l : list A) :
  Permutation (sort_insert (fun a b => key b - key a) x l) (x :: l).
Proof.
  induction l as [|y r IH]; cbn [sort_insert]; [reflexivity|].
  destruct (0 <? key y - key x); [|reflexivity].
  rewrite IH. apply perm_swap.
Qed.

Lemma key_sort_perm (l : list A) :
  Permutation (array_sort (fun a b => key b - key a) l) l.
Proof.
  induction l as [|x l IH]; [reflexivity|].
  cbn [array_sort fold_right]. rewrite key_insert_perm. now constructor.
Qed.

Lemma key_sort_desc (l : list A) :
  StronglySorted (fun a b => key b <= key a)
                 (array_sort (fun a b => key b - key a) l).
Proof.
  induction l as [|x l IH]; [constructor|].
  cbn [array_sort fold_right]. fold (array_sort (fun a b => key b - key a) l).
  induction IH as [|y r Hr IHr Hy]; cbn [sort_insert].
  - constructor; constructor.
  - destruct (0 <? key y - key x) eqn:E.
    + apply Z.ltb_lt in E. constructor; [exact IHr|].
      apply (Permutation_Forall (Permutation_sym (key_insert_perm x r))).
      constructor; [lia | exact Hy].
    + apply Z.ltb_ge in E. constructor; [now constructor|].
      constructor; [lia|].
      eapply Forall_impl; [|exact Hy]. cbn beta. intros; lia.
Qed.

Lemma key_sort_stable (s : Z) (l : list A) :
  filter (fun r => key r =? s) (array_sort (fun a b => key b - key a) l) =
  filter (fun r => key r =? s) l.
Proof.
  induction l as [|x l IH]; [reflexivity|].
  cbn [array_sort fold_right]. fold (array_sort (fun a b => key b - key a) l).
  cbn [filter]. rewrite <- IH.
  generalize (array_sort (fun a b => key b - key a) l) as t.
  induction t as [|y r IHt]; [reflexivity|].
  cbn [sort_insert]. destruct (0 <? key y - key x) eqn:E; [|reflexivity].
  apply Z.ltb_lt in E. cbn [filter]. rewrite IHt.
  destruct (key y =? s) eqn:Ey; [|reflexivity].
  apply Z.eqb_eq in Ey.
  destruct (key x =? s) eqn:Ex; [|reflexivity].
  apply Z.eqb_eq in Ex. lia.
Qed.

Lemma key_sort_constant (k : Z) (l : list A) :
  Forall (fun r => key r = k) l ->
  array_sort (fun a b => key b - key a) l = l.
Proof.
  induction l as [|x l IH]; intros H; [reflexivity|].
  inversion H as [|? ? Hx Hl]; subst.
  cbn [array_sort fold_right]. fold (array_sort (fun a b => key b - key a) l).
  rewrite (IH Hl). destruct l as [|y l']; [reflexivity|].
  cbn [sort_insert]. inversion Hl as [|? ? Hy _]; subst.
  now rewrite Hy, Z.sub_diag.
Qed.
End KeySort.

(** ** The local engine *)

Section LocalEngine.
Import AppJsx.

Lemma some_hit_iff (t : string) (l : list string) :
  (0 <? Z.of_nat (List.length (filter (hit t) l))) = existsb (hit t) l.
Proof.
  induction l as [|x l IH]; [reflexivity|].
  cbn [filter existsb]. destruct (hit t x); [reflexivity | exact IH].
Qed.

Lemma filter_length_le {A : Type} (f : A -> bool) (l : list A) :
  (List.length (filter f l) <= List.length l)%nat.
Proof.
  induction l as [|x l IH]; [cbn; lia|]. cbn [filter].
  destruct (f x); cbn [List.length]; lia.
Qed.

Lemma scoreDish_excluded (d : string) (likes dislikes allergies : list string) :
  excluded (scoreDish d likes dislikes allergies) =
  existsb (hit (toLowerCase d)) allergies.
Proof.
  unfold scoreDish. rewrite some_hit_iff.
  destruct (existsb (hit (toLowerCase d)) allergies); reflexivity.
Qed.

Lemma scoreDish_kept (d : string) (likes dislikes allergies : list string) :
  existsb (hit (toLowerCase d)) allergies = false ->
  score (scoreDish d likes dislikes allergies) =
    Z.of_nat (List.length (filter (hit (toLowerCase d)) likes))
    - 3 * Z.of_nat (List.length (filter (hit (toLowerCase d)) dislikes)).
Proof.
  intros H. unfold scoreDish. rewrite some_hit_iff, H. cbn [score]. lia.
Qed.

(** A dish that contains an allergy term is excluded with score -9999 and
    the single reason that names the allergy hits, whatever the likes and
    dislikes are. *)
Theorem allergy_excludes_whatever_the_likes
    (d a : string) (likes dislikes allergies : list string) :
  In a allergies -> a <> EmptyString -> includes (toLowerCase d) a = true ->
  scoreDish d likes dislikes allergies =
    mkScored (-9999)
      [("Contains allergy: " ++
        join ", " (filter (hit (toLowerCase d)) allergies))%string]
      true.
Proof.
  intros Hin Hne Hinc. unfold scoreDish. rewrite some_hit_iff.
  assert (H : existsb (hit (toLowerCase d)) allergies = true).
  { apply existsb_exists. exists a. split; [exact Hin|].
    unfold hit. apply truthy_true_iff in Hne. now rewrite Hne, Hinc. }
  now rewrite H.
Qed.

Lemma allergy_excludes_witness :
  In "peanut"%string ["peanut"%string] /\
  scoreDish "Peanut Satay with garlic" ["garlic"] [] ["peanut"] =
    mkScored (-9999) ["Contains allergy: peanut"] true.
Proof.
  split; [now left|].
  apply (allergy_excludes_whatever_the_likes "Peanut Satay with garlic" "peanut"
           ["garlic"] [] ["peanut"]).
  - now left.
  - discriminate.
  - reflexivity.
Defined.

(** A dish is excluded exactly when a non-empty allergy term occurs in its
    lower-cased text; a dish that is kept scores +1 for every like hit and -3
    for every dislike hit, hence between -3 times the number of dislike terms
    and the number of like terms. *)
Theorem kept_dish_score_and_bounds
    (d : string) (likes dislikes allergies : list string) :
  let r := scoreDish d likes dislikes allergies in
  (excluded r = true <->
   exists a, In a allergies /\ a <> EmptyString /\
             includes (toLowerCase d) a = true) /\
  (excluded r = false ->
   score r = Z.of_nat (List.length (filter (hit (toLowerCase d)) likes))
             - 3 * Z.of_nat (List.length (filter (hit (toLowerCase d)) dislikes)) /\
   - 3 * Z.of_nat (List.length dislikes) <= score r <= Z.of_nat (List.length likes)).
Proof.
  cbv zeta. rewrite scoreDish_excluded. split.
  - rewrite existsb_exists. split.
    + intros [a [Hin Hh]]. unfold hit in Hh. apply andb_true_iff in Hh.
      destruct Hh as [Ht Hi]. apply truthy_true_iff in Ht. now exists a.
    + intros [a [Hin [Hne Hi]]]. exists a. split; [exact Hin|].
      unfold hit. apply truthy_true_iff in Hne. now rewrite Hne, Hi.
  - intros H. rewrite (scoreDish_kept _ _ _ _ H). split; [reflexivity|].
    pose proof (filter_length_le (hit (toLowerCase d)) likes).
    pose proof (filter_length_le (hit (toLowerCase d)) dislikes).
    lia.
Qed.

(** [scoreDish] always gives at least one reason and at most two. *)
Theorem reasons_never_empty
    (d : string) (likes dislikes allergies : list string) :
  let n := List.length (reasons (scoreDish d likes dislikes allergies)) in
  (1 <= n <= 2)%nat.
Proof.
  cbv zeta. unfold scoreDish.
  destruct (0 <? Z.of_nat (List.length (filter (hit (toLowerCase d)) allergies)));
    [cbn; lia|].
  cbn [reasons].
  destruct (Z.of_nat (List.length (filter (hit (toLowerCase d)) likes)) =? 0),
           (Z.of_nat (List.length (filter (hit (toLowerCase d)) dislikes)) =? 0);
    cbn; lia.
Qed.

(** Empty terms in the three lists never count. *)
Lemma empty_terms_are_ignored
    (d : string) (likes dislikes allergies : list string) :
  scoreDish d (filter truthy likes) (filter truthy dislikes) (filter truthy allergies)
  = scoreDish d likes dislikes allergies.
Proof.
  assert (H : forall l, filter (hit (toLowerCase d)) (filter truthy l) =
                        filter (hit (toLowerCase d)) l).
  { intros l. rewrite filter_filter_andb. apply filter_ext. intros x.
    unfold hit. destruct (truthy x); reflexivity. }
  unfold scoreDish. now rewrite !H.
Qed.
End LocalEngine.

Section LocalRanking.
Import AppJsx.
Variables likes dislikes allergies : list string.

Lemma kept_lines (lines : list string) :
  filter (fun x => negb (excluded (result x)))
         (map (fun line => mkRanked line (scoreDish line likes dislikes allergies))
              lines)
  = map (fun line => mkRanked line (scoreDish line likes dislikes allergies))
        (filter (fun line => negb (existsb (hit (toLowerCase line)) allergies))
                lines).
Proof.
  induction lines as [|x l IH]; [reflexivity|].
  cbn [map filter result]. rewrite scoreDish_excluded, IH.
  destruct (existsb (hit (toLowerCase x)) allergies); reflexivity.
Qed.

Lemma onRecommend_perm (m : string) :
  Permutation (onRecommend m likes dislikes allergies)
    (map (fun line => mkRanked line (scoreDish line likes dislikes allergies))
         (filter (fun line => negb (existsb (hit (toLowerCase line)) allergies))
                 (trimmed_lines m))).
Proof.
  unfold onRecommend, trimmed_lines. rewrite kept_lines.
  apply (key_sort_perm (fun r => score (result r))).
Qed.

Lemma trimmed_lines_normal (m : string) :
  Forall (fun d => d <> EmptyString /\ trim d = d) (trimmed_lines m).
Proof.
  unfold trimmed_lines. apply Forall_forall. intros d Hd.
  apply filter_In in Hd. destruct Hd as [Hd Ht].
  apply in_map_iff in Hd. destruct Hd as [x [<- _]].
  split; [now apply truthy_true_iff | apply trim_idem].
Qed.

(** The local ranking keeps exactly the trimmed, non-empty lines in which no
    allergy term occurs, each once; every entry carries the score of its
    line and none is excluded. *)
Theorem onRecommend_drops_allergy_dishes (m : string) :
  let rs := onRecommend m likes dislikes allergies in
  Permutation (map dish rs)
    (filter (fun line => negb (existsb (hit (toLowerCase line)) allergies))
            (trimmed_lines m)) /\
  Forall (fun r =>
            result r = scoreDish (dish r) likes dislikes allergies /\
            excluded (result r) = false /\
            existsb (hit (toLowerCase (dish r))) allergies = false /\
            dish r <> EmptyString /\ trim (dish r) = dish r) rs.
Proof.
  cbv zeta. pose proof (onRecommend_perm m) as Hp. split.
  - rewrite (Permutation_map dish Hp), map_map. cbn [dish]. now rewrite map_id.
  - apply Forall_forall. intros r Hr.
    apply (Permutation_in _ Hp) in Hr. apply in_map_iff in Hr.
    destruct Hr as [line [<- Hl]]. apply filter_In in Hl. destruct Hl as [Hl Hk].
    apply negb_true_iff in Hk. cbn [dish result].
    pose proof (trimmed_lines_normal m) as Hn. rewrite Forall_forall in Hn.
    destruct (Hn _ Hl) as [Hne Ht].
    rewrite scoreDish_excluded. repeat split; assumption.
Qed.

(** The local ranking is in descending order of score, and entries with
    the same score keep the order of their lines in the menu text. *)
Theorem onRecommend_sorted_and_stable (m : string) :
  let rs := onRecommend m likes dislikes allergies in
  let kept :=
    map (fun line => mkRanked line (scoreDish line likes dislikes allergies))
        (filter (fun line => negb (existsb (hit (toLowerCase line)) allergies))
                (trimmed_lines m)) in
  StronglySorted (fun a b => score (result b) <= score (result a)) rs /\
  forall s, filter (fun r => score (result r) =? s) rs =
            filter (fun r => score (result r) =? s) kept.
Proof.
  cbv zeta. unfold onRecommend, trimmed_lines. rewrite kept_lines. split.
  - apply (key_sort_desc (fun r => score (result r))).
  - intros s. apply (key_sort_stable (fun r => score (result r))).
Qed.
End LocalRanking.

(** Without any preference term the local ranking lists the trimmed,
    non-empty lines in menu order, each with score 0 and the reason "No
    direct ingredient matches (yet)." *)
Theorem onRecommend_without_preferences (m : string) :
  AppJsx.onRecommend m [] [] [] =
  map (fun line =>
         AppJsx.mkRanked line
           (AppJsx.mkScored 0 ["No direct ingredient matches (yet)."] false))
      (trimmed_lines m).
Proof.
  unfold AppJsx.onRecommend. fold (trimmed_lines m).
  cbn [AppJsx.scoreDish filter List.length Z.of_nat Z.ltb Z.compare Z.eqb app
       Z.mul Z.add map].
  set (l := map _ (trimmed_lines m)).
  assert (Hk : filter (fun x => negb (AppJsx.excluded (AppJsx.result x))) l = l).
  { subst l. induction (trimmed_lines m) as [|x t IH]; [reflexivity|].
    cbn [map filter AppJsx.result AppJsx.excluded negb]. now rewrite IH. }
  rewrite Hk.
  apply (key_sort_constant (fun r => AppJsx.score (AppJsx.result r)) 0).
  subst l. apply Forall_forall. intros r Hr. apply in_map_iff in Hr.
  destruct Hr as [x [<- _]]. reflexivity.
Qed.

(** ** Parsing the preference fields *)

Section CommaLists.
Import AppJsx.

Lemma lower_char_comma (c : ascii) : lower_char c = comma -> c = comma.
Proof. destruct c as [[] [] [] [] [] [] [] []]; cbv; congruence. Qed.

Lemma trimStart_lower (s : string) :
  trimStart (toLowerCase s) = toLowerCase (trimStart s).
Proof.
  induction s as [|c s IH]; [reflexivity|].
  cbn [toLowerCase trimStart]. rewrite lower_char_space.
  destruct (is_space c); [exact IH | reflexivity].
Qed.

Lemma trimEnd_lower (s : string) :
  trimEnd (toLowerCase s) = toLowerCase (trimEnd s).
Proof.
  induction s as [|c s IH]; [reflexivity|].
  cbn [toLowerCase]. rewrite !trimEnd_cons, IH, lower_char_space.
  destruct (trimEnd s); cbn [toLowerCase]; [|reflexivity].
  destruct (is_space c); reflexivity.
Qed.

Lemma trim_lower (s : string) : trim (toLowerCase s) = toLowerCase (trim s).
Proof. unfold trim. now rewrite trimStart_lower, trimEnd_lower. Qed.

Lemma trimStart_chars (c : ascii) (s : string) :
  In c (list_ascii_of_string (trimStart s)) -> In c (list_ascii_of_string s).
Proof.
  induction s as [|x s IH]; [auto|]. cbn [trimStart].
  destruct (is_space x); [|auto]. intros H. right. now apply IH.
Qed.

Lemma trimEnd_chars (c : ascii) (s : string) :
  In c (list_ascii_of_string (trimEnd s)) -> In c (list_ascii_of_string s).
Proof.
  induction s as [|x s IH]; [auto|]. rewrite trimEnd_cons.
  destruct (trimEnd s) as [|c' r'].
  - destruct (is_space x); [intros [] | intros [H | []]; now left].
  - cbn [list_ascii_of_string]. intros [H | H]; [now left | right; now apply IH].
Qed.

Lemma lower_chars_comma (s : string) :
  In comma (list_ascii_of_string (toLowerCase s)) ->
  In comma (list_ascii_of_string s).
Proof.
  induction s as [|x s IH]; [auto|]. cbn [toLowerCase list_ascii_of_string].
  intros [H | H]; [left; now apply lower_char_comma | right; now apply IH].
Qed.

Lemma split_on_not_nil (sep : ascii) (s : string) : split_on sep s <> [].
Proof.
  destruct s as [|c s]; [discriminate|]. cbn [split_on].
  destruct (Ascii.eqb c sep); [discriminate|].
  destruct (split_on sep s); discriminate.
Qed.

Lemma split_on_free (sep : ascii) (x : string) :
  ~ In sep (list_ascii_of_string x) -> split_on sep x = [x].
Proof.
  induction x as [|c x IH]; [reflexivity|]. cbn [list_ascii_of_string split_on].
  intros H. destruct (Ascii.eqb c sep) eqn:E.
  - apply Ascii.eqb_eq in E. exfalso. apply H. now left.
  - rewrite IH; [reflexivity|]. intros Hin. apply H. now right.
Qed.

Lemma split_on_app_sep (sep : ascii) (x r : string) :
  ~ In sep (list_ascii_of_string x) ->
  split_on sep (x ++ String sep r)%string = x :: split_on sep r.
Proof.
  induction x as [|c x IH]; cbn [list_ascii_of_string String.append split_on].
  - intros _. now rewrite Ascii.eqb_refl.
  - intros H. destruct (Ascii.eqb c sep) eqn:E.
    + apply Ascii.eqb_eq in E. exfalso. apply H. now left.
    + rewrite IH; [reflexivity|]. intros Hin. apply H. now right.
Qed.

Lemma split_on_pieces_free (sep : ascii) (s : string) :
  Forall (fun x => ~ In sep (list_ascii_of_string x)) (split_on sep s).
Proof.
  induction s as [|c s IH]; [repeat constructor; intros []|].
  cbn [split_on]. destruct (Ascii.eqb c sep) eqn:E.
  - constructor; [intros [] | exact IH].
  - destruct (split_on sep s) as [|h t]; [repeat constructor|].
    + cbn. intros [H | []]. subst c. now rewrite Ascii.eqb_refl in E.
    + inversion IH as [|? ? Hh Ht]; subst. constructor; [|exact Ht].
      cbn [list_ascii_of_string]. intros [H | H]; [|now apply Hh].
      subst c. now rewrite Ascii.eqb_refl in E.
Qed.

Lemma parse_term_fixed (x : string) :
  clean x -> toLowerCase (trim x) = x.
Proof. intros [_ [Ht [Hl _]]]. now rewrite Ht, Hl. Qed.

Lemma parse_leading_space (s : string) :
  map (fun s => toLowerCase (trim s)) (split_on comma (String " " s)) =
  map (fun s => toLowerCase (trim s)) (split_on comma s).
Proof.
  cbn [split_on]. change (Ascii.eqb " " comma) with false. cbn iota.
  pose proof (split_on_not_nil comma s) as Hn.
  destruct (split_on comma s) as [|h t]; [contradiction|].
  reflexivity.
Qed.

Lemma parse_joined (xs : list string) :
  Forall clean xs -> parseCommaList (join ", " xs) = xs.
Proof.
  induction xs as [|x xs IH]; intros H; [reflexivity|].
  inversion H as [|? ? Hx Hxs]; subst.
  pose proof Hx as [Hne [_ [_ Hc]]]. apply truthy_true_iff in Hne.
  destruct xs as [|y rest].
  - cbn [join]. unfold parseCommaList. rewrite (split_on_free _ _ Hc).
    cbn [map filter]. now rewrite (parse_term_fixed _ Hx), Hne.
  - specialize (IH Hxs). unfold parseCommaList in *.
    change (join ", " (x :: y :: rest))
      with (x ++ String comma (String " " (join ", " (y :: rest))))%string.
    rewrite (split_on_app_sep _ _ _ Hc). cbn [map filter].
    rewrite (parse_term_fixed _ Hx), Hne, parse_leading_space, IH.
    reflexivity.
Qed.

Lemma parsed_terms_clean (str : string) : Forall clean (parseCommaList str).
Proof.
  unfold parseCommaList. apply Forall_forall. intros x Hx.
  apply filter_In in Hx. destruct Hx as [Hx Ht].
  apply in_map_iff in Hx. destruct Hx as [piece [<- Hp]].
  pose proof (split_on_pieces_free comma str) as Hf.
  rewrite Forall_forall in Hf. specialize (Hf _ Hp).
  split; [now apply truthy_true_iff|]. split; [|split].
  - now rewrite <- trim_lower, trim_idem.
  - apply toLowerCase_idem.
  - intros Hin. apply Hf. apply lower_chars_comma in Hin.
    unfold trim in Hin. now apply trimEnd_chars, trimStart_chars in Hin.
Qed.

(** Every term that [parseCommaList] returns is non-empty, trimmed, in lower
    case and free of commas. *)
Theorem parseCommaList_entries_clean (str : string) :
  Forall (fun x => x <> EmptyString /\ trim x = x /\ toLowerCase x = x /\
                   ~ In comma (list_ascii_of_string x))
         (parseCommaList str).
Proof. exact (parsed_terms_clean str). Qed.

(** Terms joined with ", ", the way the reasons print them, parse back to
    the same list; in particular a parsed list survives printing and parsing
    again. *)
Theorem parseCommaList_reads_back_joined (xs : list string) (str : string) :
  Forall clean xs ->
  parseCommaList (join ", " xs) = xs /\
  parseCommaList (join ", " (parseCommaList str)) = parseCommaList str.
Proof.
  intros H. split; [now apply parse_joined|].
  apply parse_joined, parsed_terms_clean.
Qed.

Lemma parseCommaList_reads_back_witness :
  Forall clean ["garlic"%string; "olive oil"%string] /\
  parseCommaList (join ", " ["garlic"; "olive oil"]) = ["garlic"; "olive oil"]%string /\
  parseCommaList " Garlic ,, OLIVE oil," = ["garlic"; "olive oil"]%string.
Proof.
  assert (H : Forall clean ["garlic"%string; "olive oil"%string]).
  { repeat constructor; try discriminate;
      cbn; intuition discriminate. }
  split; [exact H|]. split; [|reflexivity].
  apply (parseCommaList_reads_back_joined ["garlic"; "olive oil"] "" H).
Defined.
End CommaLists.

(** ** A menu text written line by line *)

Lemma split_newline_split_on (s : string) :
  split_newline s = split_on newline s.
Proof.
  induction s as [|c s IH]; [reflexivity|].
  cbn [split_newline split_on]. now rewrite IH.
Qed.

Lemma split_joined (sep : ascii) (lines : list string) :
  lines <> [] ->
  Forall (fun l => ~ In sep (list_ascii_of_string l)) lines ->
  split_on sep (join (String sep EmptyString) lines) = lines.
Proof.
  induction lines as [|x rest IH]; intros Hne H; [contradiction|].
  inversion H as [|? ? Hx Hrest]; subst.
  destruct rest as [|y rest].
  - cbn [join]. now apply split_on_free.
  - change (join (String sep EmptyString) (x :: y :: rest))
      with (x ++ String sep (join (String sep EmptyString) (y :: rest)))%string.
    rewrite (split_on_app_sep _ _ _ Hx). f_equal.
    apply IH; [discriminate | exact Hrest].
Qed.

(** A menu text made of non-empty lines without line breaks, joined by line
    breaks, is split back into exactly these lines, and the handler answers
    with the scored lines, rearranged. *)
Theorem menu_of_lines_is_split_back
    (ings : list Ingredient) (p : Profile) (lines : list string) :
  lines <> [] ->
  Forall (fun l => l <> EmptyString /\ ~ In newline (list_ascii_of_string l)) lines ->
  dishes (join (String newline EmptyString) lines) = lines /\
  exists rs,
    recommend ings (Some (join (String newline EmptyString) lines)) (Some p) = Json rs /\
    Permutation rs (map (scoreDish ings p) lines).
Proof.
  intros Hne H.
  assert (Hd : dishes (join (String newline EmptyString) lines) = lines).
  { unfold dishes. rewrite split_newline_split_on, split_joined.
    - clear Hne. induction lines as [|x l IH]; [reflexivity|].
      inversion H as [|? ? [Hx _] Hl]; subst. cbn [filter].
      apply truthy_true_iff in Hx. rewrite Hx. f_equal. now apply IH.
    - exact Hne.
    - eapply Forall_impl; [|exact H]. cbn beta. now intros l [_ Hl]. }
  split; [exact Hd|].
  unfold recommend.
  destruct (truthy (join (String newline EmptyString) lines)) eqn:Et.
  - cbn [negb]. eexists. split; [reflexivity|]. rewrite Hd.
    apply array_sort_perm.
  - exfalso. apply Hne. rewrite <- Hd.
    destruct (join (String newline EmptyString) lines); [reflexivity | discriminate].
Qed.

Lemma menu_of_lines_witness :
  join (String newline EmptyString) ["Garlic Chicken"; "Peanut Satay"] = scenario_menu /\
  dishes scenario_menu = ["Garlic Chicken"; "Peanut Satay"]%string.
Proof.
  split; [reflexivity|].
  apply (menu_of_lines_is_split_back scenario_catalog scenario_profile
           ["Garlic Chicken"; "Peanut Satay"]).
  - discriminate.
  - repeat constructor; try discriminate; cbn; intuition discriminate.
Defined.

(** ** A profile that lacks a bucket *)

Section RawProfiles.
Variable ings : list Ingredient.
Variable p : RawProfile.

Lemma step_raw_spec (ld : string) (acc : Acc) (ing : Ingredient) :
  step_raw p ld acc ing =
  if andb (is_match ld ing) (consults_missing p ing) then None
  else Some (step (fill p) ld acc ing).
Proof.
  unfold step_raw, step, consults_missing, fill.
  destruct (is_match ld ing); cbn [negb andb]; [|reflexivity].
  destruct (raw_avoid p) as [av|]; cbn [avoid]; [|reflexivity].
  destruct (array_includes av (id ing)); [reflexivity|].
  destruct (raw_like p) as [lk|]; cbn [like]; [|reflexivity].
  destruct (array_includes lk (id ing)); [reflexivity|].
  destruct (raw_dislike p) as [dl|]; cbn [dislike];
    [destruct (array_includes dl (id ing))|]; reflexivity.
Qed.

Lemma thrown_stays_thrown (ld : string) (l : list Ingredient) :
  fold_left (fun (st : option Acc) ing =>
               match st with
               | Some a => step_raw p ld a ing
               | None => None
               end) l None = None.
Proof. induction l as [|x l IH]; [reflexivity | exact IH]. Qed.

Lemma run_raw_spec (ld : string) (l : list Ingredient) (acc : Acc) :
  run_raw l p ld acc =
  if existsb (consults_missing p) (filter (is_match ld) l) then None
  else Some (run l (fill p) ld acc).
Proof.
  unfold run_raw, run. revert acc.
  induction l as [|x l IH]; intros acc; [reflexivity|].
  cbn [fold_left filter]. rewrite step_raw_spec.
  destruct (is_match ld x) eqn:Em; cbn [andb existsb].
  - destruct (consults_missing p x); cbn [orb].
    + apply thrown_stays_thrown.
    + apply IH.
  - apply IH.
Qed.

Lemma scoreDish_raw_spec (d : string) :
  scoreDish_raw ings p d =
  if existsb (consults_missing p) (resolved ings d) then None
  else Some (scoreDish ings (fill p) d).
Proof.
  unfold scoreDish_raw, scoreDish, resolved. rewrite run_raw_spec.
  destruct (existsb (consults_missing p) (filter (is_match (toLowerCase d)) ings));
    reflexivity.
Qed.

Lemma map_throwing_spec {A B : Type} (f : A -> option B) (b : A -> bool)
    (g : A -> B) (l : list A) :
  (forall x, f x = if b x then None else Some (g x)) ->
  map_throwing f l = if existsb b l then None else Some (map g l).
Proof.
  intros Hf. induction l as [|x l IH]; [reflexivity|].
  cbn [map_throwing existsb map]. rewrite Hf, IH.
  destruct (b x); [reflexivity|]. cbn [orb].
  destruct (existsb b l); reflexivity.
Qed.

Lemma recommend_raw_spec (m : string) :
  m <> EmptyString ->
  recommend_raw ings (Some m) (Some p) =
  if reaches_missing ings p m then TypeError
  else Sent (recommend ings (Some m) (Some (fill p))).
Proof.
  intros Hm. apply truthy_true_iff in Hm.
  unfold recommend_raw, recommend, reaches_missing. rewrite Hm. cbn [negb].
  rewrite (map_throwing_spec _
             (fun d => existsb (consults_missing p) (resolved ings d))
             (scoreDish ings (fill p)) _ scoreDish_raw_spec).
  destruct (existsb _ (dishes m)); reflexivity.
Qed.
End RawProfiles.

Lemma well_formed_never_missing (q : Profile) (ing : Ingredient) :
  consults_missing (of_profile q) ing = false.
Proof.
  unfold consults_missing, of_profile. cbn [raw_avoid raw_like raw_dislike].
  destruct (array_includes (avoid q) (id ing)); [reflexivity|].
  destruct (array_includes (like q) (id ing)); reflexivity.
Qed.

(** The handler on a body whose profile may lack buckets.  It answers 400
    "Missing data" exactly when the menu text is absent or empty or the
    profile is absent.  Otherwise a [TypeError] escapes exactly when some dish
    line resolves a catalog entry whose classification reads a missing bucket
    ([avoid] first, [like] if the id is not avoided, [dislike] if it is not
    liked either); if none does, the answer is the one for the profile with
    the missing buckets empty.  With all three arrays present the outcome is
    the response of [recommend]. *)
Theorem recommend_raw_outcomes
    (ings : list Ingredient) (menuText : option string) (rp : option RawProfile) :
  (recommend_raw ings menuText rp = Sent (Status 400 "Missing data") <->
   or_empty menuText = EmptyString \/ rp = None) /\
  (forall m p, menuText = Some m -> m <> EmptyString -> rp = Some p ->
     (recommend_raw ings menuText rp = TypeError <->
      exists d ing, In d (dishes m) /\ In ing (resolved ings d) /\
                    consults_missing p ing = true) /\
     ((forall d ing, In d (dishes m) -> In ing (resolved ings d) ->
                     consults_missing p ing = false) ->
      recommend_raw ings menuText rp =
      Sent (recommend ings (Some m) (Some (fill p))))) /\
  (forall q, recommend_raw ings menuText (Some (of_profile q)) =
             Sent (recommend ings menuText (Some q))).
Proof.
  assert (Hreach : forall p m,
            reaches_missing ings p m = true <->
            exists d ing, In d (dishes m) /\ In ing (resolved ings d) /\
                          consults_missing p ing = true).
  { intros p m. unfold reaches_missing. rewrite existsb_exists. split.
    - intros [d [Hd H]]. apply existsb_exists in H. destruct H as [ing [Hi Hc]].
      now exists d, ing.
    - intros [d [ing [Hd [Hi Hc]]]]. exists d. split; [exact Hd|].
      apply existsb_exists. now exists ing. }
  split; [|split].
  - destruct menuText as [m|], rp as [p|]; cbn [or_empty recommend_raw];
      try (split; [intros _; now right | reflexivity]);
      try (split; [intros _; now left | reflexivity]).
    destruct (truthy m) eqn:Et.
    + pose proof Et as Hm. apply truthy_true_iff in Hm.
      fold (recommend_raw ings (Some m) (Some p)).
      assert (Hr := recommend_raw_spec ings p m Hm).
      unfold recommend_raw in Hr. rewrite Et in Hr. cbn [negb] in Hr.
      cbn [negb]. rewrite Hr. split.
      * destruct (reaches_missing ings p m); [discriminate|].
        unfold recommend. rewrite Et. discriminate.
      * intros [H | H]; [contradiction | discriminate].
    + cbn [negb]. split; [|reflexivity]. intros _. left.
      destruct m; [reflexivity | discriminate].
  - intros m p -> Hm ->. rewrite (recommend_raw_spec ings p m Hm). split.
    + rewrite <- Hreach. destruct (reaches_missing ings p m); split;
        try reflexivity; try discriminate.
    + intros Hnone. destruct (reaches_missing ings p m) eqn:E; [|reflexivity].
      apply Hreach in E. destruct E as [d [ing [Hd [Hi Hc]]]].
      rewrite (Hnone d ing Hd Hi) in Hc. discriminate.
  - intros q. destruct menuText as [m|]; [|reflexivity].
    destruct (string_dec m EmptyString) as [-> | Hm]; [reflexivity|].
    rewrite (recommend_raw_spec ings (of_profile q) m Hm).
    assert (E : reaches_missing ings (of_profile q) m = false).
    { destruct (reaches_missing ings (of_profile q) m) eqn:E; [|reflexivity].
      apply Hreach in E. destruct E as [d [ing [_ [_ Hc]]]].
      rewrite well_formed_never_missing in Hc. discriminate. }
    rewrite E. destruct q; reflexivity.
Qed.

(** On a profile without [avoid], a line that resolves an entry throws, a
    line that resolves none is answered. *)
Lemma recommend_raw_outcomes_witness :
  let p := mkRawProfile (Some ["i1"%string]) (Some []) None in
  recommend_raw scenario_catalog (Some "Garlic Chicken") (Some p) = TypeError /\
  recommend_raw scenario_catalog (Some "Peanut Satay") (Some p) =
    Sent (recommend scenario_catalog (Some "Peanut Satay") (Some (fill p))).
Proof.
  cbv zeta. split.
  - apply (proj1 (proj2 (recommend_raw_outcomes scenario_catalog
                           (Some "Garlic Chicken"%string)
                           (Some (mkRawProfile (Some ["i1"%string]) (Some []) None))))
             "Garlic Chicken"%string
             (mkRawProfile (Some ["i1"%string]) (Some []) None)
             eq_refl); [discriminate | reflexivity |].
    exists "Garlic Chicken"%string, garlic.
    split; [now left|]. split; [now left | reflexivity].
  - apply (proj1 (proj2 (recommend_raw_outcomes scenario_catalog
                           (Some "Peanut Satay"%string)
                           (Some (mkRawProfile (Some ["i1"%string]) (Some []) None))))
             "Peanut Satay"%string
             (mkRawProfile (Some ["i1"%string]) (Some []) None)
             eq_refl); [discriminate | reflexivity |].
    intros d ing [<- | []] [].
Defined.
